(** * TodoList: a shallow embedding of contracts/TodoList.sol

    The contract keeps, for every address, an append-only array of tasks and
    a counter of active tasks.  External functions are modelled as
    computations in a small transaction monad (environment, storage, event
    log, failure); a failing call returns no storage at all, which is how a
    revert of the EVM rolls every write of the call back.

    uint256 values are binary naturals [N] with the checked arithmetic of
    Solidity 0.8 written out ([checked_inc], [checked_dec]); strings are
    byte strings, so [String.length] is [bytes(s).length].  Arrays are
    lists; their length is a uint256 in the contract, which statements
    that need it assume of the list ([len l ≤ max_uint256]). *)

From Stdlib Require Import NArith Lia.
From stdpp Require Import base option list sorting gmap strings.

Local Open Scope N_scope.

(** ** Data model *)

Abbreviation address := N (only parsing).

Definition max_uint256 : N := 2 ^ 256 - 1.

Record Task := mkTask {
  id : N;
  content : string;
  completed : bool;
  createdAt : N;
  completedAt : N
}.

(** The zero value of the struct, as found in freshly allocated memory. *)
Definition zero_task : Task := mkTask 0 "" false 0 0.

Definition set_content (c : string) (t : Task) : Task :=
  mkTask (id t) c (completed t) (createdAt t) (completedAt t).
Definition set_completed (b : bool) (t : Task) : Task :=
  mkTask (id t) (content t) b (createdAt t) (completedAt t).
Definition set_completedAt (n : N) (t : Task) : Task :=
  mkTask (id t) (content t) (completed t) (createdAt t) n.

Inductive Event :=
| TaskCreated (user : address) (taskId : N) (text : string) (timestamp : N)
| TaskCompleted (user : address) (taskId : N) (timestamp : N)
| TaskUncompleted (user : address) (taskId : N) (timestamp : N)
| TaskUpdated (user : address) (taskId : N) (newContent : string) (timestamp : N)
| TaskDeleted (user : address) (taskId : N) (timestamp : N).

(** Storage: the two mappings of the contract.  A key that was never
    written reads as the zero value (empty array, zero counter). *)
Record State := mkState {
  userTasks : gmap N (list Task);
  taskCount : gmap N N
}.

Definition init : State := mkState ∅ ∅.

Definition tasks_of (s : State) (a : address) : list Task :=
  default [] (userTasks s !! a).
Definition count_of (s : State) (a : address) : N :=
  default 0 (taskCount s !! a).

Definition with_tasks (s : State) (a : address) (l : list Task) : State :=
  mkState (<[a := l]> (userTasks s)) (taskCount s).
Definition with_count (s : State) (a : address) (n : N) : State :=
  mkState (userTasks s) (<[a := n]> (taskCount s)).

(** [bytes(s).length] and [array.length] as uint256. *)
Definition strlen (s : string) : N := N.of_nat (String.length s).
Definition len {A} (l : list A) : N := N.of_nat (length l).

(** ** The transaction monad *)

Record Env := mkEnv { msg_sender : address; block_timestamp : N }.

Inductive Failure :=
| Revert (reason : string)
| Panic (code : N).

Inductive Result (A : Type) :=
| Ok (a : A)
| Fail (f : Failure).
Arguments Ok {A} a.
Arguments Fail {A} f.

Definition Tx (A : Type) : Type :=
  Env → State * list Event → Result (A * (State * list Event)).

Definition ret {A} (a : A) : Tx A := λ _ σ, Ok (a, σ).

Definition bind {A B} (m : Tx A) (k : A → Tx B) : Tx B :=
  λ env σ, match m env σ with
           | Ok (a, σ') => k a env σ'
           | Fail f => Fail f
           end.

Notation "x <- c1 ;; c2" := (bind c1 (λ x, c2))
  (at level 20, c1 at level 99, c2 at level 200, right associativity).
Notation "c1 ;; c2" := (bind c1 (λ _, c2))
  (at level 100, c2 at level 200, right associativity).

Definition throw {A} (f : Failure) : Tx A := λ _ _, Fail f.

Definition require (b : bool) (reason : string) : Tx unit :=
  if b then ret tt else throw (Revert reason).

Definition sender : Tx address := λ env σ, Ok (msg_sender env, σ).
Definition timestamp : Tx N := λ env σ, Ok (block_timestamp env, σ).

Definition emit (e : Event) : Tx unit := λ _ σ, Ok (tt, (σ.1, σ.2 ++ [e])).

Definition sload_tasks (a : address) : Tx (list Task) :=
  λ _ σ, Ok (tasks_of σ.1 a, σ).
Definition sload_count (a : address) : Tx N :=
  λ _ σ, Ok (count_of σ.1 a, σ).
Definition sstore_count (a : address) (n : N) : Tx unit :=
  λ _ σ, Ok (tt, (with_count σ.1 a n, σ.2)).

(** [userTasks[a].push(t)] *)
Definition push_task (a : address) (t : Task) : Tx unit :=
  λ _ σ, Ok (tt, (with_tasks σ.1 a (tasks_of σ.1 a ++ [t]), σ.2)).

(** Reading [userTasks[a][i]]; an index out of bounds is Panic(0x32). *)
Definition sload_task (a : address) (i : N) : Tx Task :=
  λ _ σ, match tasks_of σ.1 a !! N.to_nat i with
         | Some t => Ok (t, σ)
         | None => Fail (Panic 50)
         end.

(** Writing one field of [userTasks[a][i]] through a storage reference. *)
Definition sstore_task (a : address) (i : N) (f : Task → Task) : Tx unit :=
  λ _ σ, match tasks_of σ.1 a !! N.to_nat i with
         | Some t =>
             Ok (tt, (with_tasks σ.1 a (<[N.to_nat i := f t]> (tasks_of σ.1 a)), σ.2))
         | None => Fail (Panic 50)
         end.

(** Checked [x++] and [x--] on uint256: Panic(0x11) on overflow/underflow. *)
Definition checked_inc (n : N) : Tx N :=
  if n <? max_uint256 then ret (n + 1) else throw (Panic 17).
Definition checked_dec (n : N) : Tx N :=
  if 0 <? n then ret (n - 1) else throw (Panic 17).

(** Memory arrays: [a[i]] and [a[i] = t], Panic(0x32) out of bounds. *)
Definition mload {A} (l : list A) (i : N) : Tx A :=
  match l !! N.to_nat i with
  | Some t => ret t
  | None => throw (Panic 50)
  end.
Definition mstore {A} (l : list A) (i : N) (x : A) : Tx (list A) :=
  if i <? len l then ret (<[N.to_nat i := x]> l) else throw (Panic 50).

(** [for (uint256 i = 0; i < n; i++) body], threading the loop's locals. *)
Fixpoint for_from {S} (i : N) (todo : nat) (body : N → S → Tx S) (acc : S) : Tx S :=
  match todo with
  | O => ret acc
  | Datatypes.S todo' => acc' <- body i acc ;; for_from (i + 1) todo' body acc'
  end.
Definition for_upto {S} (n : nat) (body : N → S → Tx S) (acc : S) : Tx S :=
  for_from 0 n body acc.

(** ** Modifiers *)

Definition validTaskId (_taskId : N) : Tx unit :=
  who <- sender ;;
  l <- sload_tasks who ;;
  require (_taskId <? len l) "Task does not exist".

Definition nonEmptyContent (_content : string) : Tx unit :=
  require (0 <? strlen _content) "Content cannot be empty" ;;
  require (strlen _content <=? 500) "Content too long (max 500 chars)".

(** ** External functions *)

Definition createTask (_content : string) : Tx unit :=
  nonEmptyContent _content ;;
  who <- sender ;;
  now <- timestamp ;;
  l <- sload_tasks who ;;
  let taskId := len l in
  push_task who (mkTask taskId _content false now 0) ;;
  n <- sload_count who ;;
  n' <- checked_inc n ;;
  sstore_count who n' ;;
  emit (TaskCreated who taskId _content now).

Definition toggleTask (_taskId : N) : Tx unit :=
  validTaskId _taskId ;;
  who <- sender ;;
  now <- timestamp ;;
  task <- sload_task who _taskId ;;
  sstore_task who _taskId (set_completed (negb (completed task))) ;;
  task' <- sload_task who _taskId ;;
  if completed task' then
    sstore_task who _taskId (set_completedAt now) ;;
    emit (TaskCompleted who _taskId now)
  else
    sstore_task who _taskId (set_completedAt 0) ;;
    emit (TaskUncompleted who _taskId now).

Definition updateTask (_taskId : N) (_newContent : string) : Tx unit :=
  validTaskId _taskId ;;
  nonEmptyContent _newContent ;;
  who <- sender ;;
  now <- timestamp ;;
  sstore_task who _taskId (set_content _newContent) ;;
  emit (TaskUpdated who _taskId _newContent now).

Definition deleteTask (_taskId : N) : Tx unit :=
  validTaskId _taskId ;;
  who <- sender ;;
  now <- timestamp ;;
  task <- sload_task who _taskId ;;
  require (0 <? strlen (content task)) "Task already deleted" ;;
  sstore_task who _taskId (set_content "") ;;
  sstore_task who _taskId (set_completed true) ;;
  n <- sload_count who ;;
  n' <- checked_dec n ;;
  sstore_count who n' ;;
  emit (TaskDeleted who _taskId now).

(** ** View functions *)

Definition getTask (_taskId : N) : Tx Task :=
  validTaskId _taskId ;;
  who <- sender ;;
  sload_task who _taskId.

Definition getAllTasks : Tx (list Task) :=
  who <- sender ;;
  sload_tasks who.

Definition getActiveTaskCount : Tx N :=
  who <- sender ;;
  sload_count who.

(** The two filtering views have the same body up to the test of the two
    loops; [select_tasks] is that body: count the matching tasks, allocate
    the result, copy the matching tasks at increasing indices. *)
Definition select_tasks (test : Task → bool) (allTasks : list Task) : Tx (list Task) :=
  wanted <- for_upto (length allTasks)
              (λ i count,
                 t <- mload allTasks i ;;
                 if test t then checked_inc count else ret count)
              0 ;;
  let fresh := replicate (N.to_nat wanted) zero_task in
  res <- for_upto (length allTasks)
           (λ i '(out, index),
              t <- mload allTasks i ;;
              if test t then
                out' <- mstore out index t ;;
                index' <- checked_inc index ;;
                ret (out', index')
              else ret (out, index))
           (fresh, 0) ;;
  ret res.1.

Definition is_completed_live (t : Task) : bool :=
  completed t && (0 <? strlen (content t)).
Definition is_pending_live (t : Task) : bool :=
  negb (completed t) && (0 <? strlen (content t)).

Definition getCompletedTasks : Tx (list Task) :=
  who <- sender ;;
  allTasks <- sload_tasks who ;;
  select_tasks is_completed_live allTasks.

Definition getPendingTasks : Tx (list Task) :=
  who <- sender ;;
  allTasks <- sload_tasks who ;;
  select_tasks is_pending_live allTasks.

Definition getTaskCountForUser (_user : address) : Tx N :=
  sload_count _user.

(** The getter generated for [mapping(address => uint256) public taskCount]. *)
Definition taskCount_getter (_user : address) : Tx N :=
  sload_count _user.

(** ** Calls, transactions and traces *)

Inductive Call :=
| CreateTask (_content : string)
| ToggleTask (_taskId : N)
| UpdateTask (_taskId : N) (_newContent : string)
| DeleteTask (_taskId : N)
| GetTask (_taskId : N)
| GetAllTasks
| GetActiveTaskCount
| GetCompletedTasks
| GetPendingTasks
| GetTaskCountForUser (_user : address)
| TaskCountGetter (_user : address).

Inductive RetVal :=
| RVoid
| RTask (t : Task)
| RTasks (l : list Task)
| RUint (n : N).

Definition dispatch (c : Call) : Tx RetVal :=
  match c with
  | CreateTask s => createTask s ;; ret RVoid
  | ToggleTask i => toggleTask i ;; ret RVoid
  | UpdateTask i s => updateTask i s ;; ret RVoid
  | DeleteTask i => deleteTask i ;; ret RVoid
  | GetTask i => t <- getTask i ;; ret (RTask t)
  | GetAllTasks => l <- getAllTasks ;; ret (RTasks l)
  | GetActiveTaskCount => n <- getActiveTaskCount ;; ret (RUint n)
  | GetCompletedTasks => l <- getCompletedTasks ;; ret (RTasks l)
  | GetPendingTasks => l <- getPendingTasks ;; ret (RTasks l)
  | GetTaskCountForUser u => n <- getTaskCountForUser u ;; ret (RUint n)
  | TaskCountGetter u => n <- taskCount_getter u ;; ret (RUint n)
  end.

(** One external call on storage [s]: the returned value, the new storage and
    the events of the call, or the failure. *)
Definition call (c : Call) (env : Env) (s : State)
  : Result (RetVal * (State * list Event)) :=
  dispatch c env (s, []).

(** What the caller observes of a call: value and events, or the failure. *)
Definition observe (c : Call) (env : Env) (s : State) : Result (RetVal * list Event) :=
  match call c env s with
  | Ok (v, (_, evs)) => Ok (v, evs)
  | Fail f => Fail f
  end.

(** Storage after a call; a failed call is reverted, storage is what it was. *)
Definition step (s : State) (ec : Env * Call) : State :=
  match call ec.2 ec.1 s with
  | Ok (_, (s', _)) => s'
  | Fail _ => s
  end.

Definition run (trace : list (Env * Call)) (s : State) : State :=
  fold_left step trace s.

(** ** Vocabulary of the specification *)

(** A task is live when its content is not empty; [live_count] is the
    number of live tasks of a sequence. *)
Definition live (t : Task) : bool := 0 <? strlen (content t).

Definition live_count (l : list Task) : N := len (filter (λ t, live t = true) l).

(** The error kinds of the specification, as the revert reasons of the code. *)
Definition InvalidContent {A} (r : Result A) : Prop :=
  r = Fail (Revert "Content cannot be empty") ∨
  r = Fail (Revert "Content too long (max 500 chars)").
Definition TaskNotFound {A} (r : Result A) : Prop :=
  r = Fail (Revert "Task does not exist").
Definition AlreadyDeleted {A} (r : Result A) : Prop :=
  r = Fail (Revert "Task already deleted").

(** A content of 1 to 500 bytes. *)
Definition valid_content (c : string) : Prop := 1 ≤ strlen c ≤ 500.

(** The environment of a call by [who] at time [now]. *)
Definition mk (who : address) (now : N) : Env := mkEnv who now.

(** A content of [n] bytes. *)
Fixpoint bytes_of_length (n : nat) : string :=
  match n with
  | O => ""
  | S n' => String (Ascii.ascii_of_nat 97) (bytes_of_length n')
  end.

(** ** Auxiliary definitions for the statements and proofs *)

(** The tasks of [l] that pass [test], in the order of [l]. *)
Definition matching (test : Task → bool) (l : list Task) : list Task :=
  filter (λ t, test t = true) l.

(** The task pushed by [createTask]. *)
Definition new_task (l : list Task) (c : string) (now : N) : Task :=
  mkTask (len l) c false now 0.

(** The slot after [toggleTask]: the flag is flipped, then [completedAt]
    is written according to the new flag. *)
Definition toggled (now : N) (t : Task) : Task :=
  let t' := set_completed (negb (completed t)) t in
  if completed t' then set_completedAt now t' else set_completedAt 0 t'.

(** The slot after [deleteTask]. *)
Definition deleted (t : Task) : Task := set_completed true (set_content "" t).

(** Computations that leave storage and log as they found them. *)
Definition read_only {A} (m : Tx A) : Prop :=
  ∀ env σ a σ', m env σ = Ok (a, σ') → σ' = σ.

(** The calls declared [view], and the generated getter. *)
Definition is_view (c : Call) : bool :=
  match c with
  | CreateTask _ | ToggleTask _ | UpdateTask _ _ | DeleteTask _ => false
  | _ => true
  end.

(** The storage written by each successful mutation. *)
Definition after_create (s : State) (env : Env) (c : string) : State :=
  let who := msg_sender env in
  let l := tasks_of s who in
  with_count (with_tasks s who (l ++ [new_task l c (block_timestamp env)]))
    who (count_of s who + 1).

Definition after_toggle (s : State) (env : Env) (i : N) (t : Task) : State :=
  let who := msg_sender env in
  with_tasks s who (<[N.to_nat i := toggled (block_timestamp env) t]> (tasks_of s who)).

Definition after_update (s : State) (env : Env) (i : N) (c : string) (t : Task) : State :=
  let who := msg_sender env in
  with_tasks s who (<[N.to_nat i := set_content c t]> (tasks_of s who)).

Definition after_delete (s : State) (env : Env) (i : N) (t : Task) : State :=
  let who := msg_sender env in
  with_count (with_tasks s who (<[N.to_nat i := deleted t]> (tasks_of s who)))
    who (count_of s who - 1).

(** Every step either leaves the storage as it was (a view, or a reverted
    call) or is one of the four successful mutations. *)
Inductive step_kind (s : State) (env : Env) : Call → State → Prop :=
| sk_same c : step_kind s env c s
| sk_create c :
    valid_content c → count_of s (msg_sender env) < max_uint256 →
    step_kind s env (CreateTask c) (after_create s env c)
| sk_toggle i t :
    tasks_of s (msg_sender env) !! N.to_nat i = Some t →
    step_kind s env (ToggleTask i) (after_toggle s env i t)
| sk_update i c t :
    tasks_of s (msg_sender env) !! N.to_nat i = Some t → valid_content c →
    step_kind s env (UpdateTask i c) (after_update s env i c t)
| sk_delete i t :
    tasks_of s (msg_sender env) !! N.to_nat i = Some t → live t = true →
    0 < count_of s (msg_sender env) →
    step_kind s env (DeleteTask i) (after_delete s env i t).

(** Every task sits at the index that is its [id]. *)
Definition ids_ok (l : list Task) : Prop :=
  ∀ (i : nat) t, l !! i = Some t → id t = N.of_nat i.

(** What holds of every owner on reachable storage: ids are indices, and
    the counter is at most the number of tasks with content. *)
Definition wf_user (s : State) (a : address) : Prop :=
  ids_ok (tasks_of s a) ∧ count_of s a ≤ live_count (tasks_of s a).

(** A step that gives content back to a deleted slot: an [updateTask] whose
    target slot has empty content. *)
Definition resurrects (s : State) (ec : Env * Call) : bool :=
  match ec.2 with
  | UpdateTask i _ =>
      match tasks_of s (msg_sender ec.1) !! N.to_nat i with
      | Some t => negb (live t)
      | None => false
      end
  | _ => false
  end.

(** Traces with positive timestamps in which no step does that. *)
Fixpoint clean (trace : list (Env * Call)) (s : State) : bool :=
  match trace with
  | [] => true
  | ec :: trace' =>
      negb (resurrects s ec) && (0 <? block_timestamp ec.1)
      && clean trace' (step s ec)
  end.

(** The counter is the number of tasks with content, and a task with
    content has a completion time exactly when it is completed. *)
Definition in_sync (s : State) (a : address) : Prop :=
  count_of s a = live_count (tasks_of s a)
  ∧ ∀ (j : nat) t, tasks_of s a !! j = Some t → live t = true →
      (0 < completedAt t ↔ completed t = true).

(** The number of successful [createTask] calls of [a] along a trace. *)
Definition succeeds (c : Call) (env : Env) (s : State) : bool :=
  match call c env s with Ok _ => true | Fail _ => false end.

Definition is_creation (a : address) (s : State) (ec : Env * Call) : bool :=
  match ec.2 with
  | CreateTask _ => bool_decide (msg_sender ec.1 = a) && succeeds ec.2 ec.1 s
  | _ => false
  end.

Fixpoint creations (a : address) (trace : list (Env * Call)) (s : State) : nat :=
  match trace with
  | [] => 0
  | ec :: trace' =>
      ((if is_creation a s ec then 1 else 0) + creations a trace' (step s ec))%nat
  end.

(** Ascending order of ids. *)
Definition by_id (t u : Task) : Prop := id t < id u.

(** Computations that do not look at the environment. *)
Definition env_free {A} (m : Tx A) : Prop := ∀ env env' σ, m env σ = m env' σ.

(** Two machine states agree on [a] when [a]'s sequence and counter are
    the same in both and the event logs are the same. *)
Definition agree (a : address) (σ1 σ2 : State * list Event) : Prop :=
  tasks_of σ1.1 a = tasks_of σ2.1 a
  ∧ count_of σ1.1 a = count_of σ2.1 a
  ∧ σ1.2 = σ2.2.

(** Outcomes that differ at most outside [a]'s part of storage. *)
Definition same_outcome {A} (a : address)
    (r1 r2 : Result (A * (State * list Event))) : Prop :=
  match r1, r2 with
  | Ok (x1, σ1), Ok (x2, σ2) => x1 = x2 ∧ agree a σ1 σ2
  | Fail f1, Fail f2 => f1 = f2
  | _, _ => False
  end.

(** A computation is local to [a] when, called by [a], its outcome is
    determined by [a]'s part of storage and only that part is written. *)
Definition local {A} (a : address) (m : Tx A) : Prop :=
  ∀ env σ1 σ2, msg_sender env = a → agree a σ1 σ2 →
    same_outcome a (m env σ1) (m env σ2).

(** The two lookups of a counter by address are the calls that read
    another owner's part of storage. *)
Definition is_count_lookup (c : Call) : bool :=
  match c with
  | GetTaskCountForUser _ | TaskCountGetter _ => true
  | _ => false
  end.

(** The shape of a successful call: value, storage and events. *)
Inductive ok_kind (s : State) (env : Env) : Call → RetVal → State → list Event → Prop :=
| ok_view c v : is_view c = true → ok_kind s env c v s []
| ok_create c :
    valid_content c → count_of s (msg_sender env) < max_uint256 →
    ok_kind s env (CreateTask c) RVoid (after_create s env c)
      [TaskCreated (msg_sender env) (len (tasks_of s (msg_sender env))) c
         (block_timestamp env)]
| ok_toggle i t :
    tasks_of s (msg_sender env) !! N.to_nat i = Some t →
    ok_kind s env (ToggleTask i) RVoid (after_toggle s env i t)
      [if completed t
       then TaskUncompleted (msg_sender env) i (block_timestamp env)
       else TaskCompleted (msg_sender env) i (block_timestamp env)]
| ok_update i c t :
    tasks_of s (msg_sender env) !! N.to_nat i = Some t → valid_content c →
    ok_kind s env (UpdateTask i c) RVoid (after_update s env i c t)
      [TaskUpdated (msg_sender env) i c (block_timestamp env)]
| ok_delete i t :
    tasks_of s (msg_sender env) !! N.to_nat i = Some t → live t = true →
    0 < count_of s (msg_sender env) →
    ok_kind s env (DeleteTask i) RVoid (after_delete s env i t)
      [TaskDeleted (msg_sender env) i (block_timestamp env)].

(** The calls of a trace made by [a]. *)
Definition calls_of (a : address) (trace : list (Env * Call)) : list (Env * Call) :=
  filter (λ ec, msg_sender ec.1 = a) trace.

(** * The client: frontend/src/contracts/TodoList.js, hooks/useWallet.js, App.js

    The parts of the React client that compute: the table of networks and
    its lookup, the gas options, the formatting and filtering of the
    fetched tasks, the tabs and counters of the list, the guards of the
    two forms.  JS numbers that hold chain ids, ids and times are
    naturals; [null] and a missing property are both [None]. *)

Record Network := mkNetwork {
  chainId : N;
  name : string;
  rpcUrl : option string;
  currency : string;
  explorer : option string;
  faucet : option string
}.

(** [NETWORKS], in the order of the object literal. *)
Definition NETWORKS : list (string * Network) :=
  [ ("hardhat",
     mkNetwork 31337 "Hardhat Local" (Some "http://127.0.0.1:8545") "ETH" None None);
    ("localhost",
     mkNetwork 31337 "Localhost" (Some "http://127.0.0.1:8545") "ETH" None None);
    ("shardeum_testnet",
     mkNetwork 8119 "Shardeum EVM Testnet" (Some "https://api-mezame.shardeum.org")
       "SHM" (Some "https://explorer-mezame.shardeum.org")
       (Some "https://docs.shardeum.org/docs/developer/faucet"));
    ("shardeum_unstablenet",
     mkNetwork 8080 "Shardeum Unstablenet" (Some "https://api.unstablenet.shardeum.org")
       "SHM" (Some "https://explorer.unstablenet.shardeum.org") None);
    ("sepolia",
     mkNetwork 11155111 "Sepolia Testnet" (Some "https://sepolia.infura.io/v3/")
       "ETH" (Some "https://sepolia.etherscan.io") None) ].

(** [getGasOptions]: the [gasLimit] of the options object, if it has one.
    [chainId] is [None] before a wallet is connected. *)
Definition getGasOptions (chain : option N) : option N :=
  match chain with
  | Some c =>
      if (c =? 8119) || (c =? 8080) then Some 3000000
      else if c =? 31337 then Some 500000
      else None
  | None => None
  end.

(** The state of [useTodoContract]. *)
Record TodoState := mkTodoState {
  tasks : list Task;
  loading : bool;
  error : option string
}.

(** The counters shown above the list. *)
Record Stats := mkStats {
  stats_total : nat;
  stats_completed : nat;
  stats_pending : nat
}.

(** What [contract.getAllTasks()] resolves to for a caller on a storage;
    [None] is the rejected promise. *)
Definition rpc_getAllTasks (env : Env) (s : State) : option (list Task) :=
  match call GetAllTasks env s with
  | Ok (RTasks l, _) => Some l
  | _ => None
  end.

Section client.
(** [Number(x)] on a uint256, the decimal text of a number in a template
    string, and [String.prototype.trim] are taken as they come. *)
Variable toNumber : N → N.
Variable show_number : N → string.
Variable trim : string → string.


(** The object built for each fetched task. *)
Definition formatTask (task : Task) : Task :=
  mkTask (toNumber (id task)) (content task) (completed task)
    (toNumber (createdAt task)) (toNumber (completedAt task)).

Definition formatTasks (allTasks : list Task) : list Task :=
  List.filter (λ task, (0 <? String.length (content task))%nat)
    (formatTask <$> allTasks).

(** [fetchTasks]: nothing without a contract; else the formatted tasks
    with content, or the error when the call is rejected; not loading at
    the end. *)
Definition fetchTasks (has_contract : bool) (reply : option (list Task))
    (st : TodoState) : TodoState :=
  if has_contract then
    match reply with
    | Some allTasks => mkTodoState (formatTasks allTasks) false None
    | None => mkTodoState (tasks st) false (Some "Failed to fetch tasks")
    end
  else st.

(** [filteredTasks] of App, for the selected tab. *)
Definition filteredTasks (tab : string) (l : list Task) : list Task :=
  List.filter (λ task,
      if String.eqb tab "pending" then negb (completed task)
      else if String.eqb tab "completed" then completed task
      else true) l.

(** [stats] of App. *)
Definition stats (l : list Task) : Stats :=
  mkStats (length l)
    (length (List.filter (λ t, completed t) l))
    (length (List.filter (λ t, negb (completed t)) l)).

(** The call a form submits, if it submits one: [handleCreateTask] and
    [handleSaveEdit] return early on a text that trims to nothing or
    while a transaction is pending. *)
Definition handleCreateTask (newTask : string) (txPending : bool) : option Call :=
  if String.eqb (trim newTask) "" || txPending then None
  else Some (CreateTask (trim newTask)).

Definition handleSaveEdit (taskId : N) (editContent : string) (txPending : bool)
  : option Call :=
  if String.eqb (trim editContent) "" || txPending then None
  else Some (UpdateTask taskId (trim editContent)).
End client.

(** [truncateAddress] of App; [addr] is [None] for [null]. *)
Definition truncateAddress (addr : option string) : string :=
  match addr with
  | None | Some "" => ""
  | Some a =>
      String.substring 0 6 a +:+ "..."
      +:+ String.substring (String.length a - 4) 4 a
  end.

(** The explorer link of App: shown when the network has an explorer and
    a contract address is set. *)
Definition explorerLink (network : option Network) (contractAddress : string)
  : option string :=
  match network with
  | Some n =>
      match explorer n with
      | Some e =>
          if String.eqb contractAddress "" then None
          else Some (e +:+ "/address/" +:+ contractAddress)
      | None => None
      end
  | None => None
  end.

(** * scripts/deploy.js

    The two lookups of the deployment script, for a network name that is
    an own property or no property at all of the object literal. *)

Definition getNetworkCurrency (network : string) : string :=
  let currencies :=
    [ ("hardhat", "ETH"); ("localhost", "ETH"); ("sepolia", "ETH");
      ("shardeum_testnet", "SHM"); ("shardeum_unstablenet", "SHM") ] in
  match List.find (λ kv, String.eqb kv.1 network) currencies with
  | Some kv => if String.eqb kv.2 "" then "ETH" else kv.2
  | None => "ETH"
  end.

Definition getExplorerUrl (network : string) (address : string) : option string :=
  let explorers :=
    [ ("sepolia", "https://sepolia.etherscan.io/address/" +:+ address);
      ("shardeum_testnet",
       "https://explorer-mezame.shardeum.org/address/" +:+ address);
      ("shardeum_unstablenet",
       "https://explorer.unstablenet.shardeum.org/address/" +:+ address) ] in
  match List.find (λ kv, String.eqb kv.1 network) explorers with
  | Some kv => if String.eqb kv.2 "" then None else Some kv.2
  | None => None
  end.

(** * Properties *)

(** ** The scenarios of the test suite *)

Example scenario_ids :
  id <$> tasks_of (run [(mk 7 100, CreateTask "A"); (mk 7 101, CreateTask "B");
                       (mk 7 102, CreateTask "C")] init) 7 = [0; 1; 2].
Proof. vm_compute. reflexivity. Qed.

Example scenario_toggle_delete :
  let s := run [(mk 7 100, CreateTask "A"); (mk 7 101, CreateTask "B");
                (mk 7 102, CreateTask "C"); (mk 7 103, ToggleTask 1);
                (mk 7 104, DeleteTask 2)] init in
  observe GetActiveTaskCount (mk 7 105) s = Ok (RUint 2, [])
  ∧ observe GetPendingTasks (mk 7 105) s = Ok (RTasks [mkTask 0 "A" false 100 0], [])
  ∧ observe GetCompletedTasks (mk 7 105) s = Ok (RTasks [mkTask 1 "B" true 101 103], [])
  ∧ observe (DeleteTask 2) (mk 7 105) s = Fail (Revert "Task already deleted")
  ∧ observe (GetTaskCountForUser 7) (mk 8 105) s = Ok (RUint 2, [])
  ∧ length (tasks_of s 7) = 3%nat.
Proof. vm_compute. repeat split. Qed.

Example scenario_content_bounds :
  observe (CreateTask "") (mk 7 100) init = Fail (Revert "Content cannot be empty")
  ∧ observe (CreateTask (bytes_of_length 501)) (mk 7 100) init
    = Fail (Revert "Content too long (max 500 chars)")
  ∧ observe (CreateTask (bytes_of_length 500)) (mk 7 100) init
    = Ok (RVoid, [TaskCreated 7 0 (bytes_of_length 500) 100])
  ∧ observe (CreateTask "a") (mk 7 100) init = Ok (RVoid, [TaskCreated 7 0 "a" 100]).
Proof. vm_compute. repeat split. Qed.

Example scenario_toggle_unknown :
  observe (ToggleTask 5) (mk 7 102)
    (run [(mk 7 100, CreateTask "A"); (mk 7 101, CreateTask "B")] init)
  = Fail (Revert "Task does not exist").
Proof. vm_compute. reflexivity. Qed.

Example scenario_isolation :
  let s := run [(mk 1 100, CreateTask "o1"); (mk 1 101, CreateTask "o2");
                (mk 2 102, CreateTask "u1"); (mk 3 103, CreateTask "v1");
                (mk 3 104, CreateTask "v2"); (mk 3 105, CreateTask "v3")] init in
  length (tasks_of s 1) = 2%nat ∧ length (tasks_of s 2) = 1%nat
  ∧ length (tasks_of s 3) = 3%nat.
Proof. vm_compute. repeat split. Qed.

(** ** Storage lemmas *)

Lemma tasks_of_with_tasks s a b l :
  tasks_of (with_tasks s a l) b = if decide (a = b) then l else tasks_of s b.
Proof.
  unfold tasks_of, with_tasks; simpl. rewrite lookup_insert.
  by destruct (decide (a = b)).
Qed.

Lemma tasks_of_with_count s a b n : tasks_of (with_count s a n) b = tasks_of s b.
Proof. reflexivity. Qed.

Lemma count_of_with_count s a b n :
  count_of (with_count s a n) b = if decide (a = b) then n else count_of s b.
Proof.
  unfold count_of, with_count; simpl. rewrite lookup_insert.
  by destruct (decide (a = b)).
Qed.

Lemma count_of_with_tasks s a b l : count_of (with_tasks s a l) b = count_of s b.
Proof. reflexivity. Qed.

Lemma with_tasks_twice s a l1 l2 :
  with_tasks (with_tasks s a l1) a l2 = with_tasks s a l2.
Proof. unfold with_tasks; simpl. by rewrite insert_insert_eq. Qed.

Lemma tasks_of_eq s a l : tasks_of (with_tasks s a l) a = l.
Proof. rewrite tasks_of_with_tasks. by rewrite decide_True. Qed.

Lemma count_of_eq s a n : count_of (with_count s a n) a = n.
Proof. rewrite count_of_with_count. by rewrite decide_True. Qed.

Lemma len_lt_lookup {A} (l : list A) (i : N) :
  i < len l → is_Some (l !! N.to_nat i).
Proof. unfold len. intros H. apply lookup_lt_is_Some. lia. Qed.

Lemma lookup_len_lt {A} (l : list A) (i : N) x :
  l !! N.to_nat i = Some x → i < len l.
Proof. unfold len. intros H%lookup_lt_Some. lia. Qed.

(** ** What each external function computes *)

#[local] Arguments tasks_of : simpl never.
#[local] Arguments count_of : simpl never.
#[local] Arguments with_tasks : simpl never.
#[local] Arguments with_count : simpl never.

Ltac tx_unfold :=
  unfold validTaskId, nonEmptyContent, require, bind, ret, throw, sender,
    timestamp, emit, sload_tasks, sload_count, sstore_count, push_task,
    sload_task, sstore_task, checked_inc, checked_dec; simpl.

Lemma createTask_ok env s evs c :
  valid_content c → count_of s (msg_sender env) < max_uint256 →
  createTask c env (s, evs) =
    let who := msg_sender env in
    let l := tasks_of s who in
    Ok (tt, (with_count (with_tasks s who (l ++ [new_task l c (block_timestamp env)]))
               who (count_of s who + 1),
             evs ++ [TaskCreated who (len l) c (block_timestamp env)])).
Proof.
  intros [Hlo Hhi] Hc. unfold createTask. tx_unfold.
  destruct (N.ltb_spec 0 (strlen c)); [|lia]. simpl.
  destruct (N.leb_spec (strlen c) 500); [|lia]. simpl.
  rewrite !count_of_with_tasks.
  destruct (N.ltb_spec (count_of s (msg_sender env)) max_uint256); [|lia].
  reflexivity.
Qed.

Lemma createTask_empty env σ c :
  strlen c = 0 → createTask c env σ = Fail (Revert "Content cannot be empty").
Proof. intros H. unfold createTask. tx_unfold. by rewrite H. Qed.

Lemma createTask_long env σ c :
  500 < strlen c →
  createTask c env σ = Fail (Revert "Content too long (max 500 chars)").
Proof.
  intros H. unfold createTask. tx_unfold.
  destruct (N.ltb_spec 0 (strlen c)); [|lia]. simpl.
  destruct (N.leb_spec (strlen c) 500); [lia|]. reflexivity.
Qed.

Lemma createTask_full env s evs c :
  valid_content c → max_uint256 ≤ count_of s (msg_sender env) →
  createTask c env (s, evs) = Fail (Panic 17).
Proof.
  intros [Hlo Hhi] Hc. unfold createTask. tx_unfold.
  destruct (N.ltb_spec 0 (strlen c)); [|lia]. simpl.
  destruct (N.leb_spec (strlen c) 500); [|lia]. simpl.
  rewrite !count_of_with_tasks.
  destruct (N.ltb_spec (count_of s (msg_sender env)) max_uint256); [lia|].
  reflexivity.
Qed.

Lemma validTaskId_out env σ i :
  len (tasks_of σ.1 (msg_sender env)) ≤ i →
  validTaskId i env σ = Fail (Revert "Task does not exist").
Proof.
  intros H. tx_unfold.
  by destruct (N.ltb_spec i (len (tasks_of σ.1 (msg_sender env)))); [lia|].
Qed.

Lemma validTaskId_in env σ i :
  i < len (tasks_of σ.1 (msg_sender env)) → validTaskId i env σ = Ok (tt, σ).
Proof.
  intros H. tx_unfold.
  by destruct (N.ltb_spec i (len (tasks_of σ.1 (msg_sender env)))); [|lia].
Qed.

Lemma toggleTask_out env σ i :
  len (tasks_of σ.1 (msg_sender env)) ≤ i →
  toggleTask i env σ = Fail (Revert "Task does not exist").
Proof. intros H. unfold toggleTask, bind. by rewrite validTaskId_out. Qed.

Lemma toggleTask_in env s evs i t :
  tasks_of s (msg_sender env) !! N.to_nat i = Some t →
  toggleTask i env (s, evs) =
    let who := msg_sender env in
    let now := block_timestamp env in
    Ok (tt, (with_tasks s who (<[N.to_nat i := toggled now t]> (tasks_of s who)),
             evs ++ [if completed t then TaskUncompleted who i now
                     else TaskCompleted who i now])).
Proof.
  intros Ht. pose proof (lookup_len_lt _ _ _ Ht) as Hlt.
  unfold toggleTask, bind at 1. rewrite validTaskId_in by done.
  assert (Hn : (N.to_nat i < length (tasks_of s (msg_sender env)))%nat)
    by (by eapply lookup_lt_Some).
  tx_unfold. repeat (rewrite Ht; simpl).
  rewrite tasks_of_eq, list_lookup_insert_eq by done. simpl.
  unfold toggled.
  destruct (completed t); simpl;
    rewrite tasks_of_eq, list_lookup_insert_eq by done; simpl;
    rewrite with_tasks_twice, list_insert_insert_eq; reflexivity.
Qed.

Lemma updateTask_out env σ i c :
  len (tasks_of σ.1 (msg_sender env)) ≤ i →
  updateTask i c env σ = Fail (Revert "Task does not exist").
Proof. intros H. unfold updateTask, bind. by rewrite validTaskId_out. Qed.

Lemma updateTask_empty env σ i c :
  i < len (tasks_of σ.1 (msg_sender env)) → strlen c = 0 →
  updateTask i c env σ = Fail (Revert "Content cannot be empty").
Proof.
  intros Hi Hc. unfold updateTask, bind at 1. rewrite validTaskId_in by done.
  tx_unfold. by rewrite Hc.
Qed.

Lemma updateTask_long env σ i c :
  i < len (tasks_of σ.1 (msg_sender env)) → 500 < strlen c →
  updateTask i c env σ = Fail (Revert "Content too long (max 500 chars)").
Proof.
  intros Hi Hc. unfold updateTask, bind at 1. rewrite validTaskId_in by done.
  tx_unfold.
  destruct (N.ltb_spec 0 (strlen c)); [|lia]. simpl.
  destruct (N.leb_spec (strlen c) 500); [lia|]. reflexivity.
Qed.

Lemma updateTask_in env s evs i c t :
  tasks_of s (msg_sender env) !! N.to_nat i = Some t → valid_content c →
  updateTask i c env (s, evs) =
    let who := msg_sender env in
    Ok (tt, (with_tasks s who (<[N.to_nat i := set_content c t]> (tasks_of s who)),
             evs ++ [TaskUpdated who i c (block_timestamp env)])).
Proof.
  intros Ht [Hlo Hhi]. pose proof (lookup_len_lt _ _ _ Ht) as Hlt.
  unfold updateTask, bind at 1. rewrite validTaskId_in by done.
  tx_unfold.
  destruct (N.ltb_spec 0 (strlen c)); [|lia]. simpl.
  destruct (N.leb_spec (strlen c) 500); [|lia]. simpl.
  by rewrite Ht.
Qed.

Lemma deleteTask_out env σ i :
  len (tasks_of σ.1 (msg_sender env)) ≤ i →
  deleteTask i env σ = Fail (Revert "Task does not exist").
Proof. intros H. unfold deleteTask, bind. by rewrite validTaskId_out. Qed.

Lemma deleteTask_gone env s evs i t :
  tasks_of s (msg_sender env) !! N.to_nat i = Some t → live t = false →
  deleteTask i env (s, evs) = Fail (Revert "Task already deleted").
Proof.
  intros Ht Hl. pose proof (lookup_len_lt _ _ _ Ht) as Hlt.
  unfold deleteTask, bind at 1. rewrite validTaskId_in by done.
  tx_unfold. rewrite Ht. simpl. unfold live in Hl. by rewrite Hl.
Qed.

Lemma deleteTask_underflow env s evs i t :
  tasks_of s (msg_sender env) !! N.to_nat i = Some t → live t = true →
  count_of s (msg_sender env) = 0 →
  deleteTask i env (s, evs) = Fail (Panic 17).
Proof.
  intros Ht Hl Hc. pose proof (lookup_len_lt _ _ _ Ht) as Hlt.
  assert (Hn : (N.to_nat i < length (tasks_of s (msg_sender env)))%nat)
    by (by eapply lookup_lt_Some).
  unfold deleteTask, bind at 1. rewrite validTaskId_in by done.
  tx_unfold. rewrite Ht. simpl. unfold live in Hl. rewrite Hl. simpl.
  rewrite Ht. simpl. rewrite tasks_of_eq, list_lookup_insert_eq by done. simpl.
  rewrite !count_of_with_tasks, Hc. reflexivity.
Qed.

Lemma deleteTask_in env s evs i t :
  tasks_of s (msg_sender env) !! N.to_nat i = Some t → live t = true →
  0 < count_of s (msg_sender env) →
  deleteTask i env (s, evs) =
    let who := msg_sender env in
    Ok (tt, (with_count (with_tasks s who (<[N.to_nat i := deleted t]> (tasks_of s who)))
               who (count_of s who - 1),
             evs ++ [TaskDeleted who i (block_timestamp env)])).
Proof.
  intros Ht Hl Hc. pose proof (lookup_len_lt _ _ _ Ht) as Hlt.
  assert (Hn : (N.to_nat i < length (tasks_of s (msg_sender env)))%nat)
    by (by eapply lookup_lt_Some).
  unfold deleteTask, bind at 1. rewrite validTaskId_in by done.
  tx_unfold. rewrite Ht. simpl. unfold live in Hl. rewrite Hl. simpl.
  rewrite Ht. simpl. rewrite tasks_of_eq, list_lookup_insert_eq by done. simpl.
  rewrite !count_of_with_tasks.
  destruct (N.ltb_spec 0 (count_of s (msg_sender env))); [|lia].
  rewrite with_tasks_twice, list_insert_insert_eq. reflexivity.
Qed.

Lemma getTask_out env σ i :
  len (tasks_of σ.1 (msg_sender env)) ≤ i →
  getTask i env σ = Fail (Revert "Task does not exist").
Proof. intros H. unfold getTask, bind. by rewrite validTaskId_out. Qed.

Lemma getTask_in env σ i t :
  tasks_of σ.1 (msg_sender env) !! N.to_nat i = Some t →
  getTask i env σ = Ok (t, σ).
Proof.
  intros Ht. pose proof (lookup_len_lt _ _ _ Ht) as Hlt.
  unfold getTask, bind at 1. rewrite validTaskId_in by done.
  tx_unfold. by rewrite Ht.
Qed.

(** ** The filtering loops *)

Section select.
Variable test : Task → bool.
Variable allTasks : list Task.

Lemma matching_cons t l :
  matching test (t :: l) = if test t then t :: matching test l else matching test l.
Proof.
  unfold matching. rewrite filter_cons.
  destruct (test t); by case_decide.
Qed.

Lemma mload_at pre t rest env σ :
  allTasks = pre ++ t :: rest → mload allTasks (len pre) env σ = Ok (t, σ).
Proof.
  intros ->. unfold mload, len. rewrite Nat2N.id.
  by rewrite list_lookup_middle.
Qed.

Lemma mstore_in {A} (l : list A) i x env σ :
  i < len l → mstore l i x env σ = Ok (<[N.to_nat i := x]> l, σ).
Proof. intros H. unfold mstore. by destruct (N.ltb_spec i (len l)); [|lia]. Qed.

Lemma checked_inc_ok n env σ :
  n < max_uint256 → checked_inc n env σ = Ok (n + 1, σ).
Proof.
  intros H. unfold checked_inc. by destruct (N.ltb_spec n max_uint256); [|lia].
Qed.

Lemma len_snoc {A} (l : list A) x : len (l ++ [x]) = len l + 1.
Proof. unfold len. rewrite length_app. simpl. lia. Qed.

Lemma count_loop rest : ∀ pre cnt env σ,
  allTasks = pre ++ rest →
  cnt + len (matching test rest) ≤ max_uint256 →
  for_from (len pre) (length rest)
    (λ i count, t <- mload allTasks i ;;
                if test t then checked_inc count else ret count)
    cnt env σ
  = Ok (cnt + len (matching test rest), σ).
Proof.
  induction rest as [|t rest IH]; intros pre cnt env σ Hall Hmax.
  - simpl. unfold ret, len. simpl. by rewrite N.add_0_r.
  - simpl. unfold bind at 1. unfold bind at 1.
    rewrite (mload_at pre t rest) by done.
    rewrite matching_cons in *.
    destruct (test t).
    + change (len (t :: matching test rest)) with (N.of_nat (S (length (matching test rest)))) in *.
      rewrite checked_inc_ok by (unfold len in *; lia).
      rewrite <- (len_snoc pre t).
      rewrite (IH (pre ++ [t])).
      * f_equal. f_equal. unfold len. lia.
      * by rewrite <- app_assoc.
      * unfold len in *. lia.
    + unfold ret. rewrite <- (len_snoc pre t). rewrite (IH (pre ++ [t])); try done.
      by rewrite <- app_assoc.
Qed.

Lemma copy_loop rest : ∀ pre found env σ,
  allTasks = pre ++ rest →
  len found + len (matching test rest) ≤ max_uint256 →
  for_from (len pre) (length rest)
    (λ i '(out, index),
       t <- mload allTasks i ;;
       if test t then
         out' <- mstore out index t ;;
         index' <- checked_inc index ;;
         ret (out', index')
       else ret (out, index))
    (found ++ replicate (length (matching test rest)) zero_task, len found) env σ
  = Ok ((found ++ matching test rest, len found + len (matching test rest)), σ).
Proof.
  induction rest as [|t rest IH]; intros pre found env σ Hall Hmax.
  - simpl. unfold ret, len. simpl. by rewrite N.add_0_r.
  - simpl. unfold bind at 1. unfold bind at 1.
    rewrite (mload_at pre t rest) by done.
    rewrite matching_cons in *.
    destruct (test t).
    + change (len (t :: matching test rest)) with (N.of_nat (S (length (matching test rest)))) in *.
      simpl length. simpl replicate.
      unfold bind at 1.
      rewrite mstore_in by (unfold len; rewrite length_app; simpl; lia).
      unfold bind at 1.
      rewrite checked_inc_ok by (unfold len in *; lia).
      unfold ret at 1.
      unfold len at 2. rewrite Nat2N.id.
      rewrite insert_app_r_alt, Nat.sub_diag by done. simpl.
      rewrite <- (len_snoc pre t), <- (len_snoc found t).
      rewrite (cons_middle t found), app_assoc.
      rewrite (IH (pre ++ [t]) (found ++ [t])).
      * f_equal. f_equal. f_equal.
        -- by rewrite <- app_assoc.
        -- unfold len. rewrite length_app. simpl. lia.
      * by rewrite <- app_assoc.
      * unfold len in *. rewrite length_app. simpl. lia.
    + unfold ret at 1. rewrite <- (len_snoc pre t).
      rewrite (IH (pre ++ [t]) found); try done.
      by rewrite <- app_assoc.
Qed.

(** The two loops compute the sublist of the matching test tasks, in order. *)
Lemma select_tasks_filter env σ :
  len allTasks ≤ max_uint256 →
  select_tasks test allTasks env σ = Ok (matching test allTasks, σ).
Proof.
  intros Hmax. unfold select_tasks, for_upto.
  assert (Hm : len (matching test allTasks) ≤ len allTasks).
  { unfold len, matching. pose proof (length_filter (λ t, test t = true) allTasks). lia. }
  pose proof (count_loop allTasks [] 0 env σ eq_refl) as Hcount.
  pose proof (copy_loop allTasks [] [] env σ eq_refl) as Hcopy.
  change (len []) with 0 in Hcount, Hcopy. rewrite N.add_0_l in Hcount, Hcopy.
  unfold bind at 1. rewrite Hcount by lia.
  unfold bind at 1. unfold len at 1. rewrite Nat2N.id.
  simpl app in Hcopy. rewrite Hcopy by lia.
  reflexivity.
Qed.
End select.

(** ** Views do not write *)

Lemma read_only_ret {A} (a : A) : read_only (ret a).
Proof. intros env σ b σ' [= _ ->]. done. Qed.

Lemma read_only_throw {A} f : read_only (@throw A f).
Proof. intros env σ b σ' [=]. Qed.

Lemma read_only_bind {A B} (m : Tx A) (k : A → Tx B) :
  read_only m → (∀ a, read_only (k a)) → read_only (bind m k).
Proof.
  intros Hm Hk env σ b σ' H. unfold bind in H.
  destruct (m env σ) as [[a σ1]|] eqn:E; [|done].
  apply Hm in E as ->. by apply Hk in H.
Qed.

Lemma read_only_for_from {S} (body : N → S → Tx S) todo :
  (∀ i acc, read_only (body i acc)) → ∀ i acc, read_only (for_from i todo body acc).
Proof.
  intros Hb. induction todo as [|todo IH]; intros i acc; simpl.
  - apply read_only_ret.
  - apply read_only_bind; [apply Hb | intros a; apply IH].
Qed.

Lemma read_only_mload {A} (l : list A) i : read_only (mload l i).
Proof.
  unfold mload. destruct (l !! N.to_nat i);
    [apply read_only_ret | apply read_only_throw].
Qed.

Lemma read_only_mstore {A} (l : list A) i x : read_only (mstore l i x).
Proof.
  unfold mstore. destruct (i <? len l);
    [apply read_only_ret | apply read_only_throw].
Qed.

Lemma read_only_checked_inc n : read_only (checked_inc n).
Proof.
  unfold checked_inc. destruct (n <? max_uint256);
    [apply read_only_ret | apply read_only_throw].
Qed.

Lemma read_only_sender : read_only sender.
Proof. intros env σ b σ' [= _ ->]. done. Qed.

Lemma read_only_sload_tasks a : read_only (sload_tasks a).
Proof. intros env σ b σ' [= _ ->]. done. Qed.

Lemma read_only_sload_count a : read_only (sload_count a).
Proof. intros env σ b σ' [= _ ->]. done. Qed.

Lemma read_only_sload_task a i : read_only (sload_task a i).
Proof.
  intros env σ b σ'. unfold sload_task.
  destruct (tasks_of σ.1 a !! N.to_nat i); [|done]. by intros [= _ ->].
Qed.

Lemma read_only_require b msg : read_only (require b msg).
Proof.
  unfold require. destruct b; [apply read_only_ret | apply read_only_throw].
Qed.

Lemma read_only_validTaskId i : read_only (validTaskId i).
Proof.
  unfold validTaskId.
  apply read_only_bind; [apply read_only_sender | intros who].
  apply read_only_bind; [apply read_only_sload_tasks | intros l].
  apply read_only_require.
Qed.

Lemma read_only_select_tasks test l : read_only (select_tasks test l).
Proof.
  unfold select_tasks, for_upto.
  apply read_only_bind.
  - apply read_only_for_from. intros i acc.
    apply read_only_bind; [apply read_only_mload | intros t].
    destruct (test t); [apply read_only_checked_inc | apply read_only_ret].
  - intros wanted. apply read_only_bind; [|intros r; apply read_only_ret].
    apply read_only_for_from. intros i [out index].
    apply read_only_bind; [apply read_only_mload | intros t].
    destruct (test t); [|apply read_only_ret].
    apply read_only_bind; [apply read_only_mstore | intros out'].
    apply read_only_bind; [apply read_only_checked_inc | intros index'].
    apply read_only_ret.
Qed.

Lemma read_only_view c : is_view c = true → read_only (dispatch c).
Proof.
  destruct c; simpl; try discriminate; intros _;
    (apply read_only_bind; [|intros r; apply read_only_ret]).
  - unfold getTask.
    apply read_only_bind; [apply read_only_validTaskId | intros _].
    apply read_only_bind; [apply read_only_sender | intros who].
    apply read_only_sload_task.
  - unfold getAllTasks.
    apply read_only_bind; [apply read_only_sender | intros who].
    apply read_only_sload_tasks.
  - unfold getActiveTaskCount.
    apply read_only_bind; [apply read_only_sender | intros who].
    apply read_only_sload_count.
  - unfold getCompletedTasks.
    apply read_only_bind; [apply read_only_sender | intros who].
    apply read_only_bind; [apply read_only_sload_tasks | intros l].
    apply read_only_select_tasks.
  - unfold getPendingTasks.
    apply read_only_bind; [apply read_only_sender | intros who].
    apply read_only_bind; [apply read_only_sload_tasks | intros l].
    apply read_only_select_tasks.
  - apply read_only_sload_count.
  - apply read_only_sload_count.
Qed.

Lemma step_view s env c : is_view c = true → step s (env, c) = s.
Proof.
  intros Hv. unfold step, call. simpl.
  destruct (dispatch c env (s, [])) as [[v [s' evs]]|] eqn:E; [|done].
  by apply (read_only_view c Hv) in E as [= -> _].
Qed.

(** ** One step of a trace *)

Lemma N_cases_content c : strlen c = 0 ∨ 500 < strlen c ∨ valid_content c.
Proof. unfold valid_content. lia. Qed.

Lemma lookup_cases {A} (l : list A) (i : N) :
  len l ≤ i ∨ ∃ x, l !! N.to_nat i = Some x.
Proof.
  destruct (l !! N.to_nat i) as [x|] eqn:E; [right; eauto|left].
  apply lookup_ge_None in E. unfold len. lia.
Qed.

Lemma live_cases t : live t = true ∨ live t = false.
Proof. destruct (live t); auto. Qed.

Lemma call_create_ok s env c :
  valid_content c → count_of s (msg_sender env) < max_uint256 →
  call (CreateTask c) env s =
    Ok (RVoid, (after_create s env c,
                [TaskCreated (msg_sender env) (len (tasks_of s (msg_sender env))) c
                   (block_timestamp env)])).
Proof.
  intros Hc Hn. unfold call, dispatch, bind. by rewrite createTask_ok.
Qed.

Lemma call_toggle_ok s env i t :
  tasks_of s (msg_sender env) !! N.to_nat i = Some t →
  call (ToggleTask i) env s =
    Ok (RVoid, (after_toggle s env i t,
                [if completed t
                 then TaskUncompleted (msg_sender env) i (block_timestamp env)
                 else TaskCompleted (msg_sender env) i (block_timestamp env)])).
Proof.
  intros Ht. unfold call, dispatch, bind. by rewrite (toggleTask_in _ _ _ _ t).
Qed.

Lemma call_update_ok s env i c t :
  tasks_of s (msg_sender env) !! N.to_nat i = Some t → valid_content c →
  call (UpdateTask i c) env s =
    Ok (RVoid, (after_update s env i c t,
                [TaskUpdated (msg_sender env) i c (block_timestamp env)])).
Proof.
  intros Ht Hc. unfold call, dispatch, bind. by rewrite (updateTask_in _ _ _ _ _ t).
Qed.

Lemma call_delete_ok s env i t :
  tasks_of s (msg_sender env) !! N.to_nat i = Some t → live t = true →
  0 < count_of s (msg_sender env) →
  call (DeleteTask i) env s =
    Ok (RVoid, (after_delete s env i t,
                [TaskDeleted (msg_sender env) i (block_timestamp env)])).
Proof.
  intros Ht Hl Hc. unfold call, dispatch, bind. by rewrite (deleteTask_in _ _ _ _ t).
Qed.

Lemma step_cases s env c : step_kind s env c (step s (env, c)).
Proof.
  destruct (is_view c) eqn:Hv.
  { rewrite step_view by done. constructor. }
  destruct c as [c|i|i c|i| | | | | | |]; try discriminate; clear Hv.
  - destruct (N_cases_content c) as [H|[H|H]].
    + unfold step, call, dispatch, bind; simpl. rewrite createTask_empty by done. constructor.
    + unfold step, call, dispatch, bind; simpl. rewrite createTask_long by done. constructor.
    + destruct (N.lt_ge_cases (count_of s (msg_sender env)) max_uint256) as [Hn|Hn].
      * unfold step; cbn [fst snd]. rewrite call_create_ok by done. by constructor.
      * unfold step, call, dispatch, bind; simpl. rewrite createTask_full by done. constructor.
  - destruct (lookup_cases (tasks_of s (msg_sender env)) i) as [H|[t Ht]].
    + unfold step, call, dispatch, bind; simpl. rewrite toggleTask_out by done. constructor.
    + unfold step; cbn [fst snd]. rewrite (call_toggle_ok _ _ _ t) by done. by constructor.
  - destruct (lookup_cases (tasks_of s (msg_sender env)) i) as [H|[t Ht]].
    + unfold step, call, dispatch, bind; simpl. rewrite updateTask_out by done. constructor.
    + pose proof (lookup_len_lt _ _ _ Ht) as Hlt.
      destruct (N_cases_content c) as [H|[H|H]].
      * unfold step, call, dispatch, bind; simpl. rewrite updateTask_empty by done. constructor.
      * unfold step, call, dispatch, bind; simpl. rewrite updateTask_long by done. constructor.
      * unfold step; cbn [fst snd]. rewrite (call_update_ok _ _ _ _ t) by done. by constructor.
  - destruct (lookup_cases (tasks_of s (msg_sender env)) i) as [H|[t Ht]].
    + unfold step, call, dispatch, bind; simpl. rewrite deleteTask_out by done. constructor.
    + destruct (live_cases t) as [Hl|Hl].
      * destruct (N.eq_0_gt_0_cases (count_of s (msg_sender env))) as [Hn|Hn].
        -- unfold step, call, dispatch, bind; simpl.
           rewrite (deleteTask_underflow _ _ _ _ t) by done. constructor.
        -- unfold step; cbn [fst snd]. rewrite (call_delete_ok _ _ _ t) by done. by constructor.
      * unfold step, call, dispatch, bind; simpl.
        rewrite (deleteTask_gone _ _ _ _ t) by done. constructor.
Qed.

(** Case analysis on the step of a given call. *)
Ltac step_inv s env c :=
  let K := fresh "K" in
  let s' := fresh "s'" in
  let E := fresh "E" in
  pose proof (step_cases s env c) as K;
  remember (step s (env, c)) as s' eqn:E; clear E;
  inversion K; subst; clear K.

Lemma run_snoc trace ec s : run (trace ++ [ec]) s = step (run trace s) ec.
Proof. unfold run. by rewrite fold_left_app. Qed.

Lemma run_app t1 t2 s : run (t1 ++ t2) s = run t2 (run t1 s).
Proof. unfold run. by rewrite fold_left_app. Qed.

(** ** Invariants of reachable storage *)

Lemma live_count_nil : live_count [] = 0.
Proof. reflexivity. Qed.

Lemma live_count_cons t l :
  live_count (t :: l) = (if live t then 1 else 0) + live_count l.
Proof.
  unfold live_count, len. rewrite filter_cons.
  destruct (live t); case_decide; try done; simpl; lia.
Qed.

Lemma live_count_snoc l t :
  live_count (l ++ [t]) = live_count l + (if live t then 1 else 0).
Proof.
  induction l as [|x l IH]; simpl.
  - rewrite live_count_cons, !live_count_nil. lia.
  - rewrite !live_count_cons, IH. lia.
Qed.

Lemma live_count_insert l : ∀ (i : nat) t t',
  l !! i = Some t →
  live_count (<[i := t']> l) + (if live t then 1 else 0)
  = live_count l + (if live t' then 1 else 0).
Proof.
  induction l as [|x l IH]; intros [|i] t t' H; simpl in *; try done.
  - injection H as ->. rewrite !live_count_cons. lia.
  - rewrite !live_count_cons. specialize (IH i t t' H). lia.
Qed.

Lemma live_count_le_len l : live_count l ≤ len l.
Proof.
  unfold live_count, len.
  pose proof (length_filter (λ t, live t = true) l). lia.
Qed.

Lemma valid_content_live c t : valid_content c → live (set_content c t) = true.
Proof. unfold valid_content, live. simpl. intros H. apply N.ltb_lt. lia. Qed.

Lemma ids_ok_snoc l c now : ids_ok l → ids_ok (l ++ [new_task l c now]).
Proof.
  intros Hl i t H. apply lookup_app_Some in H as [H|[Hi H]]; [by apply Hl|].
  apply list_lookup_singleton_Some in H as [Hi' <-]. simpl. unfold len.
  f_equal. lia.
Qed.

Lemma ids_ok_insert l (i : nat) t t' :
  ids_ok l → l !! i = Some t → id t' = id t → ids_ok (<[i := t']> l).
Proof.
  intros Hl Ht Hid j u H.
  destruct (decide (i = j)) as [->|Hne].
  - rewrite list_lookup_insert_eq in H by (by eapply lookup_lt_Some).
    injection H as <-. rewrite Hid. by apply Hl.
  - rewrite list_lookup_insert_ne in H by done. by apply Hl.
Qed.

Lemma wf_user_init a : wf_user init a.
Proof.
  split.
  - intros i t H. unfold tasks_of, init in H. simpl in H.
    rewrite lookup_empty in H. simpl in H. by rewrite lookup_nil in H.
  - unfold count_of, tasks_of, init. simpl. rewrite !lookup_empty. simpl.
    rewrite live_count_nil. lia.
Qed.

Lemma wf_user_step s ec a : wf_user s a → wf_user (step s ec) a.
Proof.
  intros [Hids Hcnt]. destruct ec as [env c].
  destruct (step_cases s env c) as [c|c Hc Hn|i t Ht|i c t Ht Hc|i t Ht Hl Hn];
    [done| | | |].
  - unfold wf_user, after_create.
    rewrite tasks_of_with_count, tasks_of_with_tasks, count_of_with_count,
      count_of_with_tasks.
    destruct (decide (msg_sender env = a)) as [<-|Hne]; [|done].
    split; [by apply ids_ok_snoc|].
    rewrite live_count_snoc. unfold new_task.
    pose proof (valid_content_live c zero_task Hc) as Hlive.
    unfold live in *. simpl in *. rewrite Hlive. lia.
  - unfold wf_user, after_toggle. rewrite tasks_of_with_tasks, count_of_with_tasks.
    destruct (decide (msg_sender env = a)) as [<-|Hne]; [|done].
    split.
    + eapply ids_ok_insert; [done..|]. unfold toggled. simpl.
      by destruct (completed t).
    + pose proof (live_count_insert _ _ _ (toggled (block_timestamp env) t) Ht) as E.
      assert (live (toggled (block_timestamp env) t) = live t) as Hsame
        by (unfold toggled, live; simpl; by destruct (completed t)).
      rewrite Hsame in E. lia.
  - unfold wf_user, after_update. rewrite tasks_of_with_tasks, count_of_with_tasks.
    destruct (decide (msg_sender env = a)) as [<-|Hne]; [|done].
    split.
    + by eapply ids_ok_insert.
    + pose proof (live_count_insert _ _ _ (set_content c t) Ht) as E.
      rewrite (valid_content_live c t Hc) in E. destruct (live t); lia.
  - unfold wf_user, after_delete.
    rewrite tasks_of_with_count, tasks_of_with_tasks, count_of_with_count,
      count_of_with_tasks.
    destruct (decide (msg_sender env = a)) as [<-|Hne]; [|done].
    split.
    + by eapply ids_ok_insert.
    + pose proof (live_count_insert _ _ _ (deleted t) Ht) as E.
      rewrite Hl in E. change (live (deleted t)) with false in E.
      cbv iota in E. lia.
Qed.

Lemma wf_user_run trace : ∀ s a, wf_user s a → wf_user (run trace s) a.
Proof.
  induction trace as [|ec trace IH]; intros s a H; [done|].
  simpl. apply IH. by apply wf_user_step.
Qed.

Lemma reachable_wf trace a : wf_user (run trace init) a.
Proof. apply wf_user_run, wf_user_init. Qed.

(** Slots are never removed, and a slot keeps its [id] and [createdAt]. *)
Lemma step_slot s ec a (i : nat) t :
  tasks_of s a !! i = Some t →
  ∃ t', tasks_of (step s ec) a !! i = Some t'
        ∧ id t' = id t ∧ createdAt t' = createdAt t.
Proof.
  intros H. destruct ec as [env c].
  assert (Hi : (i < length (tasks_of s a))%nat) by (by eapply lookup_lt_Some).
  destruct (step_cases s env c) as [c|c Hc Hn|j u Hu|j c u Hu Hc|j u Hu Hl Hn];
    [by eauto| | | |].
  - unfold after_create. rewrite tasks_of_with_count, tasks_of_with_tasks.
    destruct (decide (msg_sender env = a)) as [<-|Hne]; [|by eauto].
    exists t. by rewrite lookup_app_l.
  - unfold after_toggle. rewrite tasks_of_with_tasks.
    destruct (decide (msg_sender env = a)) as [<-|Hne]; [|by eauto].
    destruct (decide (N.to_nat j = i)) as [<-|Hji].
    + rewrite list_lookup_insert_eq by done. eexists; split; [done|].
      rewrite Hu in H. injection H as ->. unfold toggled. simpl.
      by destruct (completed t).
    + rewrite list_lookup_insert_ne by done. eauto.
  - unfold after_update. rewrite tasks_of_with_tasks.
    destruct (decide (msg_sender env = a)) as [<-|Hne]; [|by eauto].
    destruct (decide (N.to_nat j = i)) as [<-|Hji].
    + rewrite list_lookup_insert_eq by done. eexists; split; [done|].
      rewrite Hu in H. by injection H as ->.
    + rewrite list_lookup_insert_ne by done. eauto.
  - unfold after_delete. rewrite tasks_of_with_count, tasks_of_with_tasks.
    destruct (decide (msg_sender env = a)) as [<-|Hne]; [|by eauto].
    destruct (decide (N.to_nat j = i)) as [<-|Hji].
    + rewrite list_lookup_insert_eq by done. eexists; split; [done|].
      rewrite Hu in H. by injection H as ->.
    + rewrite list_lookup_insert_ne by done. eauto.
Qed.

Lemma run_slot trace : ∀ s a (i : nat) t,
  tasks_of s a !! i = Some t →
  ∃ t', tasks_of (run trace s) a !! i = Some t'
        ∧ id t' = id t ∧ createdAt t' = createdAt t.
Proof.
  induction trace as [|ec trace IH]; intros s a i t H; [by eauto|].
  simpl. destruct (step_slot s ec a i t H) as (t1 & H1 & Hid & Hcr).
  destruct (IH _ _ _ _ H1) as (t2 & H2 & Hid2 & Hcr2).
  exists t2. split; [done|]. split; congruence.
Qed.

Lemma step_length s ec a :
  length (tasks_of (step s ec) a)
  = (length (tasks_of s a) + if is_creation a s ec then 1 else 0)%nat.
Proof.
  destruct ec as [env c].
  destruct c as [c|i|i c|i| | | | | | |]; unfold is_creation; cbn [fst snd];
    try (rewrite step_view by done; lia).
  - unfold succeeds, step; cbn [fst snd].
    destruct (N_cases_content c) as [H|[H|H]].
    + unfold call, dispatch, bind. rewrite createTask_empty by done.
      rewrite andb_false_r. lia.
    + unfold call, dispatch, bind. rewrite createTask_long by done.
      rewrite andb_false_r. lia.
    + destruct (N.lt_ge_cases (count_of s (msg_sender env)) max_uint256) as [Hn|Hn].
      * rewrite call_create_ok by done. unfold after_create.
        rewrite tasks_of_with_count, tasks_of_with_tasks, andb_true_r.
        case_decide as Ha.
        -- rewrite bool_decide_eq_true_2 by done. subst a.
           rewrite length_app. simpl. lia.
        -- rewrite bool_decide_eq_false_2 by done. lia.
      * unfold call, dispatch, bind. rewrite createTask_full by done.
        rewrite andb_false_r. lia.
  - step_inv s env (ToggleTask i); [lia|].
    unfold after_toggle. rewrite tasks_of_with_tasks.
    case_decide; [subst a; rewrite length_insert|]; lia.
  - step_inv s env (UpdateTask i c); [lia|].
    unfold after_update. rewrite tasks_of_with_tasks.
    case_decide; [subst a; rewrite length_insert|]; lia.
  - step_inv s env (DeleteTask i); [lia|].
    unfold after_delete. rewrite tasks_of_with_count, tasks_of_with_tasks.
    case_decide; [subst a; rewrite length_insert|]; lia.
Qed.

Lemma run_length trace : ∀ s a,
  length (tasks_of (run trace s) a)
  = (length (tasks_of s a) + creations a trace s)%nat.
Proof.
  induction trace as [|ec trace IH]; intros s a; simpl; [lia|].
  rewrite IH, step_length. lia.
Qed.

(** ** createTask *)

(** C4.  On storage reached by any trace of calls, [createTask] with a
    content of 1 to 500 bytes appends a task whose [id] is the current
    length of the caller's sequence, not completed, created now, never
    completed, and adds one to the caller's count (the sequence is assumed
    not to have filled the uint256 range); an empty or longer content is
    rejected with InvalidContent; the length of a sequence is the number of
    its owner's successful creations so far, every task sits at the index
    that is its [id], and a later trace never changes the [id] of a slot. *)
Theorem createTask_appends_and_ids_are_stable trace env c :
  let s := run trace init in
  let who := msg_sender env in
  let l := tasks_of s who in
  (valid_content c → len l < max_uint256 →
     ∃ s', call (CreateTask c) env s
             = Ok (RVoid, (s', [TaskCreated who (len l) c (block_timestamp env)]))
           ∧ tasks_of s' who = l ++ [mkTask (len l) c false (block_timestamp env) 0]
           ∧ count_of s' who = count_of s who + 1
           ∧ ∀ a, a ≠ who → tasks_of s' a = tasks_of s a ∧ count_of s' a = count_of s a)
  ∧ (strlen c = 0 ∨ 500 < strlen c →
       InvalidContent (call (CreateTask c) env s) ∧ step s (env, CreateTask c) = s)
  ∧ (∀ a, length (tasks_of s a) = creations a trace init)
  ∧ (∀ a (i : nat) t, tasks_of s a !! i = Some t → id t = N.of_nat i)
  ∧ (∀ later a (i : nat) t, tasks_of s a !! i = Some t →
       ∃ t', tasks_of (run later s) a !! i = Some t' ∧ id t' = id t).
Proof.
  intros s who l. repeat split.
  - intros Hc Hlen.
    destruct (reachable_wf trace who) as [_ Hcnt]. fold s in Hcnt.
    pose proof (live_count_le_len (tasks_of s who)) as Hle.
    assert (Hn : count_of s who < max_uint256) by (subst l; lia).
    exists (after_create s env c).
    rewrite call_create_ok by done. split; [done|].
    unfold after_create. fold who. fold l.
    rewrite tasks_of_with_count, tasks_of_eq, count_of_eq.
    split; [done|]. split; [done|]. intros a Ha.
    rewrite tasks_of_with_count, tasks_of_with_tasks, count_of_with_count,
      count_of_with_tasks.
    by rewrite !decide_False by done.
  - destruct H as [H|H]; [left|right]; unfold call, dispatch, bind.
    + by rewrite createTask_empty.
    + by rewrite createTask_long.
  - unfold step, call, dispatch, bind; cbn [fst snd].
    destruct H as [H|H]; [by rewrite createTask_empty|by rewrite createTask_long].
  - intros a. subst s. by rewrite run_length.
  - intros a i t H. by apply (reachable_wf trace a).
  - intros later a i t H.
    destruct (run_slot later s a i t H) as (t' & H' & Hid & _). eauto.
Qed.

Lemma createTask_appends_witness :
  let s := run [(mk 7 100, CreateTask "A")] init in
  ∃ s', call (CreateTask "B") (mk 7 101) s
          = Ok (RVoid, (s', [TaskCreated 7 1 "B" 101]))
        ∧ tasks_of s' 7 = tasks_of s 7 ++ [mkTask 1 "B" false 101 0]
        ∧ count_of s' 7 = 2
        ∧ ∀ a, a ≠ 7 → tasks_of s' a = tasks_of s a ∧ count_of s' a = count_of s a.
Proof.
  destruct (createTask_appends_and_ids_are_stable
              [(mk 7 100, CreateTask "A")] (mk 7 101) "B") as [H _].
  apply H.
  - split; vm_compute; discriminate.
  - vm_compute. reflexivity.
Defined.

(** ** updateTask *)

(** C9.  With [id] inside the caller's sequence, [updateTask] with a
    content of 1 to 500 bytes replaces the content of that slot only: its
    other fields, every other slot, every counter and every other
    sequence are as before; an empty or longer content is rejected with
    InvalidContent and nothing is written. *)
Theorem updateTask_replaces_content_only s env i c t :
  let who := msg_sender env in
  let l := tasks_of s who in
  l !! N.to_nat i = Some t →
  (valid_content c →
     ∃ s', call (UpdateTask i c) env s
             = Ok (RVoid, (s', [TaskUpdated who i c (block_timestamp env)]))
           ∧ tasks_of s' who !! N.to_nat i
             = Some (mkTask (id t) c (completed t) (createdAt t) (completedAt t))
           ∧ length (tasks_of s' who) = length l
           ∧ (∀ j : nat, j ≠ N.to_nat i → tasks_of s' who !! j = l !! j)
           ∧ (∀ a, count_of s' a = count_of s a)
           ∧ (∀ a, a ≠ who → tasks_of s' a = tasks_of s a))
  ∧ (strlen c = 0 ∨ 500 < strlen c →
       InvalidContent (call (UpdateTask i c) env s) ∧ step s (env, UpdateTask i c) = s).
Proof.
  intros who l Ht.
  assert (Hn : (N.to_nat i < length l)%nat) by (by eapply lookup_lt_Some).
  pose proof (lookup_len_lt _ _ _ Ht) as Hlt.
  split.
  - intros Hc. exists (after_update s env i c t).
    rewrite (call_update_ok _ _ _ _ t) by done. split; [done|].
    unfold after_update. fold who. fold l. rewrite tasks_of_eq.
    split; [by rewrite list_lookup_insert_eq|].
    split; [by rewrite length_insert|].
    split; [intros j Hj; by rewrite list_lookup_insert_ne|].
    split; [intros a; by rewrite count_of_with_tasks|].
    intros a Ha. rewrite tasks_of_with_tasks. by rewrite decide_False.
  - intros H. unfold InvalidContent, step, call, dispatch, bind; cbn [fst snd].
    destruct H as [H|H].
    + rewrite updateTask_empty by done. auto.
    + rewrite updateTask_long by done. auto.
Qed.

Lemma updateTask_replaces_witness :
  let s := run [(mk 7 100, CreateTask "A"); (mk 7 101, ToggleTask 0)] init in
  ∃ s', call (UpdateTask 0 "B") (mk 7 102) s
          = Ok (RVoid, (s', [TaskUpdated 7 0 "B" 102]))
        ∧ tasks_of s' 7 !! N.to_nat 0 = Some (mkTask 0 "B" true 100 101)
        ∧ length (tasks_of s' 7) = length (tasks_of s 7)
        ∧ (∀ j : nat, j ≠ N.to_nat 0 → tasks_of s' 7 !! j = tasks_of s 7 !! j)
        ∧ (∀ a, count_of s' a = count_of s a)
        ∧ (∀ a, a ≠ 7 → tasks_of s' a = tasks_of s a).
Proof.
  intros s.
  destruct (updateTask_replaces_content_only s (mk 7 102) 0 "B"
              (mkTask 0 "A" true 100 101)) as [H _].
  - vm_compute. reflexivity.
  - apply H. split; vm_compute; discriminate.
Defined.

(** ** deleteTask and the counter *)

(** C10.  The counter never goes below zero.  With a counter of zero every
    [deleteTask] of the owner fails: outside the sequence with
    TaskNotFound, on an emptied slot with AlreadyDeleted, on a slot with
    content with the arithmetic panic 0x11 of the decrement; storage is as
    before in each case.  A successful [deleteTask] starts from a positive
    counter and takes exactly one off.  The panic is reachable: an update
    of a deleted slot gives it content again without counting it. *)
Theorem deleteTask_never_underflows s env i :
  let who := msg_sender env in
  let l := tasks_of s who in
  count_of s who = 0 →
  (len l ≤ i → TaskNotFound (call (DeleteTask i) env s))
  ∧ (∀ t, l !! N.to_nat i = Some t → content t = "" →
       AlreadyDeleted (call (DeleteTask i) env s))
  ∧ (∀ t, l !! N.to_nat i = Some t → content t ≠ "" →
       call (DeleteTask i) env s = Fail (Panic 17))
  ∧ (∃ f, call (DeleteTask i) env s = Fail f)
  ∧ step s (env, DeleteTask i) = s
  ∧ (∀ s0 j v s' evs, call (DeleteTask j) env s0 = Ok (v, (s', evs)) →
       0 < count_of s0 who ∧ count_of s' who + 1 = count_of s0 who)
  ∧ (let s1 := run [(mk 7 100, CreateTask "A"); (mk 7 101, DeleteTask 0);
                    (mk 7 102, UpdateTask 0 "B")] init in
     count_of s1 7 = 0 ∧ call (DeleteTask 0) (mk 7 103) s1 = Fail (Panic 17)).
Proof.
  intros who l Hz.
  assert (Hlive : ∀ t, content t ≠ "" → live t = true).
  { intros t Ht. unfold live, strlen. destruct (content t); [done|]. simpl.
    apply N.ltb_lt. lia. }
  assert (Hdead : ∀ t, content t = "" → live t = false).
  { intros t Ht. unfold live. by rewrite Ht. }
  assert (H1 : len l ≤ i → call (DeleteTask i) env s = Fail (Revert "Task does not exist")).
  { intros H. unfold call, dispatch, bind. by rewrite deleteTask_out. }
  assert (H2 : ∀ t, l !! N.to_nat i = Some t → content t = "" →
               call (DeleteTask i) env s = Fail (Revert "Task already deleted")).
  { intros t Ht Hc. unfold call, dispatch, bind.
    rewrite (deleteTask_gone _ _ _ _ t); auto. }
  assert (H3 : ∀ t, l !! N.to_nat i = Some t → content t ≠ "" →
               call (DeleteTask i) env s = Fail (Panic 17)).
  { intros t Ht Hc. unfold call, dispatch, bind.
    rewrite (deleteTask_underflow _ _ _ _ t); auto. }
  assert (H4 : ∃ f, call (DeleteTask i) env s = Fail f).
  { destruct (lookup_cases l i) as [H|[t Ht]]; [eauto|].
    destruct (decide (content t = "")); eauto. }
  split; [done|]. split; [done|]. split; [done|]. split; [done|].
  split; [|split].
  - destruct H4 as [f Hf]. unfold step; cbn [fst snd]. by rewrite Hf.
  - intros s0 j v s' evs Hok.
    destruct (lookup_cases (tasks_of s0 who) j) as [H|[t Ht]].
    { unfold call, dispatch, bind in Hok. by rewrite deleteTask_out in Hok. }
    destruct (live_cases t) as [Hl|Hl].
    + destruct (N.eq_0_gt_0_cases (count_of s0 who)) as [Hn|Hn].
      * unfold call, dispatch, bind in Hok.
        by rewrite (deleteTask_underflow _ _ _ _ t) in Hok.
      * rewrite (call_delete_ok _ _ _ t) in Hok by done.
        injection Hok as _ <- _. unfold after_delete. fold who.
        rewrite count_of_eq. lia.
    + unfold call, dispatch, bind in Hok.
      by rewrite (deleteTask_gone _ _ _ _ t) in Hok.
  - vm_compute. done.
Qed.

Lemma deleteTask_never_underflows_witness :
  let s1 := run [(mk 7 100, CreateTask "A"); (mk 7 101, DeleteTask 0);
                 (mk 7 102, UpdateTask 0 "B")] init in
  call (DeleteTask 0) (mk 7 103) s1 = Fail (Panic 17)
  ∧ step s1 (mk 7 103, DeleteTask 0) = s1.
Proof.
  intros s1.
  destruct (deleteTask_never_underflows s1 (mk 7 103) 0)
    as (_ & _ & H3 & _ & H5 & _).
  - vm_compute. reflexivity.
  - split; [|exact H5].
    apply (H3 (mkTask 0 "B" true 100 0)).
    + vm_compute. reflexivity.
    + discriminate.
Defined.

(** ** The filtered views *)

Lemma ids_sorted_from l : ∀ k : nat,
  (∀ (i : nat) t, l !! i = Some t → id t = N.of_nat (k + i)) →
  StronglySorted by_id l.
Proof.
  induction l as [|x l IH]; intros k H; constructor.
  - apply (IH (S k)). intros i t Hi. rewrite (H (S i) t Hi). f_equal. lia.
  - apply Forall_lookup. intros i u Hu. unfold by_id.
    rewrite (H 0%nat x eq_refl), (H (S i) u Hu). lia.
Qed.

Lemma ids_ok_sorted l : ids_ok l → StronglySorted by_id l.
Proof. intros H. by apply (ids_sorted_from l 0). Qed.

Lemma sorted_filter (P : Task → Prop) `{!∀ t, Decision (P t)} l :
  StronglySorted by_id l → StronglySorted by_id (filter P l).
Proof.
  induction 1 as [|x l Hl IH Hx]; [constructor|].
  rewrite filter_cons. case_decide; [|done].
  constructor; [done|].
  apply Forall_forall. intros u Hu%list_elem_of_filter.
  rewrite Forall_forall in Hx. apply Hx, Hu.
Qed.

Lemma live_iff t : live t = true ↔ content t ≠ "".
Proof.
  unfold live, strlen. destruct (content t); simpl.
  - split; [discriminate|done].
  - split; [done|]. intros _. apply N.ltb_lt. lia.
Qed.

Lemma completed_live_iff t :
  is_completed_live t = true ↔ completed t = true ∧ content t ≠ "".
Proof.
  unfold is_completed_live. rewrite andb_true_iff. by rewrite <- live_iff.
Qed.

Lemma pending_live_iff t :
  is_pending_live t = true ↔ completed t = false ∧ content t ≠ "".
Proof.
  unfold is_pending_live. rewrite andb_true_iff, negb_true_iff.
  by rewrite <- live_iff.
Qed.

Lemma getCompletedTasks_filter env s evs :
  len (tasks_of s (msg_sender env)) ≤ max_uint256 →
  getCompletedTasks env (s, evs)
  = Ok (filter (λ t, completed t = true ∧ content t ≠ "") (tasks_of s (msg_sender env)),
        (s, evs)).
Proof.
  intros H. unfold getCompletedTasks, bind, sender, sload_tasks; cbn [fst snd].
  rewrite select_tasks_filter by done. unfold matching.
  by rewrite (list_filter_iff _ _ _ completed_live_iff).
Qed.

Lemma getPendingTasks_filter env s evs :
  len (tasks_of s (msg_sender env)) ≤ max_uint256 →
  getPendingTasks env (s, evs)
  = Ok (filter (λ t, completed t = false ∧ content t ≠ "") (tasks_of s (msg_sender env)),
        (s, evs)).
Proof.
  intros H. unfold getPendingTasks, bind, sender, sload_tasks; cbn [fst snd].
  rewrite select_tasks_filter by done. unfold matching.
  by rewrite (list_filter_iff _ _ _ pending_live_iff).
Qed.

(** The two filtered views on reachable storage. *)
Lemma filtered_views trace env :
  let s := run trace init in
  let l := tasks_of s (msg_sender env) in
  len l ≤ max_uint256 →
  let finished := filter (λ t, completed t = true ∧ content t ≠ "") l in
  let pending := filter (λ t, completed t = false ∧ content t ≠ "") l in
  call GetCompletedTasks env s = Ok (RTasks finished, (s, []))
  ∧ call GetPendingTasks env s = Ok (RTasks pending, (s, []))
  ∧ (∀ t, t ∈ finished ↔ t ∈ l ∧ completed t = true ∧ content t ≠ "")
  ∧ (∀ t, t ∈ pending ↔ t ∈ l ∧ completed t = false ∧ content t ≠ "")
  ∧ StronglySorted by_id finished
  ∧ StronglySorted by_id pending.
Proof.
  intros s l Hlen finished pending.
  assert (Hs : StronglySorted by_id l) by apply ids_ok_sorted, (reachable_wf trace).
  split; [unfold call, dispatch, bind; by rewrite getCompletedTasks_filter|].
  split; [unfold call, dispatch, bind; by rewrite getPendingTasks_filter|].
  split; [intros t; unfold finished; rewrite list_elem_of_filter; tauto|].
  split; [intros t; unfold pending; rewrite list_elem_of_filter; tauto|].
  split; by apply sorted_filter.
Qed.

(** C8.  On storage reached by any trace, [getCompletedTasks] returns the
    caller's tasks that are completed and have content, and
    [getPendingTasks] those that are not completed and have content, each
    as the sublist of the caller's sequence, hence by ascending [id]
    (the sequence length is assumed to be a uint256). *)
Theorem completed_and_pending_views trace env :
  let s := run trace init in
  let l := tasks_of s (msg_sender env) in
  len l ≤ max_uint256 →
  let finished := filter (λ t, completed t = true ∧ content t ≠ "") l in
  let pending := filter (λ t, completed t = false ∧ content t ≠ "") l in
  call GetCompletedTasks env s = Ok (RTasks finished, (s, []))
  ∧ call GetPendingTasks env s = Ok (RTasks pending, (s, []))
  ∧ (∀ t, t ∈ finished ↔ t ∈ l ∧ completed t = true ∧ content t ≠ "")
  ∧ (∀ t, t ∈ pending ↔ t ∈ l ∧ completed t = false ∧ content t ≠ "")
  ∧ StronglySorted by_id finished
  ∧ StronglySorted by_id pending.
Proof. exact (filtered_views trace env). Qed.

Lemma completed_and_pending_witness :
  let trace := [(mk 7 100, CreateTask "A"); (mk 7 101, CreateTask "B");
                (mk 7 102, CreateTask "C"); (mk 7 103, ToggleTask 1);
                (mk 7 104, DeleteTask 2)] in
  call GetCompletedTasks (mk 7 105) (run trace init)
    = Ok (RTasks [mkTask 1 "B" true 101 103], (run trace init, []))
  ∧ call GetPendingTasks (mk 7 105) (run trace init)
    = Ok (RTasks [mkTask 0 "A" false 100 0], (run trace init, [])).
Proof.
  intros trace.
  destruct (completed_and_pending_views trace (mk 7 105)) as (H1 & H2 & _).
  - vm_compute. discriminate.
  - split; [rewrite H1 | rewrite H2]; vm_compute; reflexivity.
Defined.

(** ** Failures *)

Lemma env_free_ret {A} (a : A) : env_free (ret a).
Proof. done. Qed.

Lemma env_free_throw {A} f : env_free (@throw A f).
Proof. done. Qed.

Lemma env_free_bind {A B} (m : Tx A) (k : A → Tx B) :
  env_free m → (∀ a, env_free (k a)) → env_free (bind m k).
Proof.
  intros Hm Hk env env' σ. unfold bind. rewrite (Hm env env' σ).
  destruct (m env' σ) as [[a σ1]|]; [apply Hk|done].
Qed.

Lemma env_free_for_from {S} (body : N → S → Tx S) todo :
  (∀ i acc, env_free (body i acc)) → ∀ i acc, env_free (for_from i todo body acc).
Proof.
  intros Hb. induction todo as [|todo IH]; intros i acc; simpl.
  - apply env_free_ret.
  - apply env_free_bind; [apply Hb | intros a; apply IH].
Qed.

Lemma env_free_mload {A} (l : list A) i : env_free (mload l i).
Proof. unfold mload. by destruct (l !! N.to_nat i). Qed.

Lemma env_free_mstore {A} (l : list A) i x : env_free (mstore l i x).
Proof. unfold mstore. by destruct (i <? len l). Qed.

Lemma env_free_checked_inc n : env_free (checked_inc n).
Proof. unfold checked_inc. by destruct (n <? max_uint256). Qed.

Lemma env_free_select_tasks test l : env_free (select_tasks test l).
Proof.
  unfold select_tasks, for_upto.
  apply env_free_bind.
  - apply env_free_for_from. intros i acc.
    apply env_free_bind; [apply env_free_mload | intros t].
    destruct (test t); [apply env_free_checked_inc | apply env_free_ret].
  - intros wanted. apply env_free_bind; [|intros r; apply env_free_ret].
    apply env_free_for_from. intros i [out index].
    apply env_free_bind; [apply env_free_mload | intros t].
    destruct (test t); [|apply env_free_ret].
    apply env_free_bind; [apply env_free_mstore | intros out'].
    apply env_free_bind; [apply env_free_checked_inc | intros index'].
    apply env_free_ret.
Qed.

(** A view depends on the environment through the caller only. *)
Lemma view_at_any_time c env now' σ :
  is_view c = true →
  dispatch c (mkEnv (msg_sender env) now') σ = dispatch c env σ.
Proof.
  destruct c; try discriminate; intros _;
    unfold dispatch, getTask, getAllTasks, getActiveTaskCount, getCompletedTasks,
      getPendingTasks, getTaskCountForUser, taskCount_getter, validTaskId, bind,
      sender, sload_tasks, sload_task, sload_count;
    cbn [fst snd msg_sender]; try reflexivity.
  - unfold require. by destruct (_ <? _).
  - by rewrite (env_free_select_tasks _ _ (mkEnv (msg_sender env) now') env).
  - by rewrite (env_free_select_tasks _ _ (mkEnv (msg_sender env) now') env).
Qed.

(** A failing call fails the same way at any later time. *)
Lemma failure_at_any_time c env now' s f :
  call c env s = Fail f → call c (mkEnv (msg_sender env) now') s = Fail f.
Proof.
  destruct (is_view c) eqn:Hv.
  { unfold call. by rewrite view_at_any_time. }
  intros H.
  destruct c as [c|i|i c|i| | | | | | |]; try discriminate; clear Hv.
  - destruct (N_cases_content c) as [Hc|[Hc|Hc]].
    + unfold call, dispatch, bind in *. rewrite createTask_empty in * by done. done.
    + unfold call, dispatch, bind in *. rewrite createTask_long in * by done. done.
    + destruct (N.lt_ge_cases (count_of s (msg_sender env)) max_uint256) as [Hn|Hn].
      * by rewrite call_create_ok in H.
      * unfold call, dispatch, bind in *.
        rewrite createTask_full in H by done.
        by rewrite createTask_full.
  - destruct (lookup_cases (tasks_of s (msg_sender env)) i) as [Hi|[t Ht]].
    + unfold call, dispatch, bind in *. rewrite toggleTask_out in H by done.
      by rewrite toggleTask_out.
    + by rewrite (call_toggle_ok _ _ _ t) in H.
  - destruct (lookup_cases (tasks_of s (msg_sender env)) i) as [Hi|[t Ht]].
    + unfold call, dispatch, bind in *. rewrite updateTask_out in H by done.
      by rewrite updateTask_out.
    + pose proof (lookup_len_lt _ _ _ Ht) as Hlt.
      destruct (N_cases_content c) as [Hc|[Hc|Hc]].
      * unfold call, dispatch, bind in *. rewrite updateTask_empty in H by done.
        by rewrite updateTask_empty.
      * unfold call, dispatch, bind in *. rewrite updateTask_long in H by done.
        by rewrite updateTask_long.
      * by rewrite (call_update_ok _ _ _ _ t) in H.
  - destruct (lookup_cases (tasks_of s (msg_sender env)) i) as [Hi|[t Ht]].
    + unfold call, dispatch, bind in *. rewrite deleteTask_out in H by done.
      by rewrite deleteTask_out.
    + destruct (live_cases t) as [Hl|Hl].
      * destruct (N.eq_0_gt_0_cases (count_of s (msg_sender env))) as [Hn|Hn].
        -- unfold call, dispatch, bind in *.
           rewrite (deleteTask_underflow _ _ _ _ t) in H by done.
           by rewrite (deleteTask_underflow _ _ _ _ t).
        -- by rewrite (call_delete_ok _ _ _ t) in H.
      * unfold call, dispatch, bind in *.
        rewrite (deleteTask_gone _ _ _ _ t) in H by done.
        by rewrite (deleteTask_gone _ _ _ _ t).
Qed.

Lemma content_empty_dead t : content t = "" → live t = false.
Proof. intros H. unfold live. by rewrite H. Qed.

(** C7.  [toggleTask], [updateTask], [deleteTask] and [getTask] fail with
    TaskNotFound exactly when [id] is not below the length of the caller's
    sequence; the check looks at the index only, so the slot of a deleted
    task passes it ([toggleTask], a valid [updateTask] and [getTask]
    succeed on it); a failing call of any kind leaves storage as it was,
    and repeated on that storage at any later time it fails the same way. *)
Theorem TaskNotFound_iff_out_of_range_and_failures_are_atomic s env i :
  let who := msg_sender env in
  let l := tasks_of s who in
  (TaskNotFound (call (ToggleTask i) env s) ↔ len l ≤ i)
  ∧ (∀ c, TaskNotFound (call (UpdateTask i c) env s) ↔ len l ≤ i)
  ∧ (TaskNotFound (call (DeleteTask i) env s) ↔ len l ≤ i)
  ∧ (TaskNotFound (call (GetTask i) env s) ↔ len l ≤ i)
  ∧ (∀ t, l !! N.to_nat i = Some t → content t = "" →
       (∃ r, call (ToggleTask i) env s = Ok r)
       ∧ (∀ c, valid_content c → ∃ r, call (UpdateTask i c) env s = Ok r)
       ∧ call (GetTask i) env s = Ok (RTask t, (s, [])))
  ∧ (∀ c f, call c env s = Fail f → step s (env, c) = s)
  ∧ (∀ c f now', call c env s = Fail f →
       call c (mkEnv who now') (step s (env, c)) = Fail f).
Proof.
  intros who l. unfold TaskNotFound.
  assert (Hgt : ∀ t, l !! N.to_nat i = Some t → ¬ len l ≤ i).
  { intros t Ht%lookup_len_lt. lia. }
  split; [|split; [|split; [|split; [|split; [|split]]]]].
  - split.
    + intros H. destruct (lookup_cases l i) as [Hi|[t Ht]]; [done|].
      by rewrite (call_toggle_ok _ _ _ t) in H.
    + intros H. unfold call, dispatch, bind. by rewrite toggleTask_out.
  - intros c. split.
    + intros H. destruct (lookup_cases l i) as [Hi|[t Ht]]; [done|].
      pose proof (lookup_len_lt _ _ _ Ht) as Hlt.
      destruct (N_cases_content c) as [Hc|[Hc|Hc]].
      * unfold call, dispatch, bind in H. by rewrite updateTask_empty in H.
      * unfold call, dispatch, bind in H. by rewrite updateTask_long in H.
      * by rewrite (call_update_ok _ _ _ _ t) in H.
    + intros H. unfold call, dispatch, bind. by rewrite updateTask_out.
  - split.
    + intros H. destruct (lookup_cases l i) as [Hi|[t Ht]]; [done|].
      destruct (live_cases t) as [Hl|Hl].
      * destruct (N.eq_0_gt_0_cases (count_of s who)) as [Hn|Hn].
        -- unfold call, dispatch, bind in H.
           by rewrite (deleteTask_underflow _ _ _ _ t) in H.
        -- by rewrite (call_delete_ok _ _ _ t) in H.
      * unfold call, dispatch, bind in H.
        by rewrite (deleteTask_gone _ _ _ _ t) in H.
    + intros H. unfold call, dispatch, bind. by rewrite deleteTask_out.
  - split.
    + intros H. destruct (lookup_cases l i) as [Hi|[t Ht]]; [done|].
      unfold call, dispatch, bind in H. by rewrite (getTask_in _ _ _ t) in H.
    + intros H. unfold call, dispatch, bind. by rewrite getTask_out.
  - intros t Ht Hc. split; [|split].
    + rewrite (call_toggle_ok _ _ _ t) by done. eauto.
    + intros c Hv. rewrite (call_update_ok _ _ _ _ t) by done. eauto.
    + unfold call, dispatch, bind. by rewrite (getTask_in _ _ _ t).
  - intros c f H. unfold step; cbn [fst snd]. by rewrite H.
  - intros c f now' H.
    assert (step s (env, c) = s) as -> by (unfold step; cbn [fst snd]; by rewrite H).
    by apply failure_at_any_time.
Qed.

Lemma TaskNotFound_witness :
  let s := run [(mk 7 100, CreateTask "A"); (mk 7 101, DeleteTask 0)] init in
  (∃ r, call (ToggleTask 0) (mk 7 102) s = Ok r)
  ∧ (∃ r, call (UpdateTask 0 "B") (mk 7 102) s = Ok r)
  ∧ call (GetTask 0) (mk 7 102) s = Ok (RTask (mkTask 0 "" true 100 0), (s, []))
  ∧ call (ToggleTask 5) (mk 7 103) (step s (mk 7 102, ToggleTask 5))
    = Fail (Revert "Task does not exist").
Proof.
  intros s.
  destruct (TaskNotFound_iff_out_of_range_and_failures_are_atomic s (mk 7 102) 0)
    as (_ & _ & _ & _ & H & _).
  destruct (TaskNotFound_iff_out_of_range_and_failures_are_atomic s (mk 7 102) 5)
    as ([_ H1] & _ & _ & _ & _ & _ & H7).
  destruct (H (mkTask 0 "" true 100 0)) as (Ha & Hb & Hc);
    [vm_compute; reflexivity | reflexivity |].
  split; [exact Ha|]. split; [|split; [exact Hc|]].
  - apply Hb. split; vm_compute; discriminate.
  - apply (H7 (ToggleTask 5) _ 103). apply H1. vm_compute. discriminate.
Defined.

(** ** Isolation of owners *)

Lemma local_ret {A} a (x : A) : local a (ret x).
Proof. by intros env σ1 σ2 _ H. Qed.

Lemma local_throw {A} a f : local a (@throw A f).
Proof. by intros env σ1 σ2 _ H. Qed.

Lemma local_bind {A B} a (m : Tx A) (k : A → Tx B) :
  local a m → (∀ x, local a (k x)) → local a (bind m k).
Proof.
  intros Hm Hk env σ1 σ2 Ha H. unfold bind.
  specialize (Hm env σ1 σ2 Ha H). unfold same_outcome in Hm.
  destruct (m env σ1) as [[x1 σ1']|f1], (m env σ2) as [[x2 σ2']|f2]; try done.
  destruct Hm as [-> H']. by apply Hk.
Qed.

Lemma local_sender {B} a (k : address → Tx B) :
  local a (k a) → local a (bind sender k).
Proof.
  intros Hk env σ1 σ2 Ha H. unfold bind, sender. rewrite Ha. by apply Hk.
Qed.

Lemma local_timestamp a : local a timestamp.
Proof. by intros env σ1 σ2 _ H. Qed.

Lemma local_require a b msg : local a (require b msg).
Proof. unfold require. destruct b; [apply local_ret | apply local_throw]. Qed.

Lemma local_emit a e : local a (emit e).
Proof.
  intros env σ1 σ2 _ (H1 & H2 & H3). unfold emit. simpl.
  split; [done|]. split; [done|]. split; [done|]. simpl. by rewrite H3.
Qed.

Lemma local_sload_tasks a : local a (sload_tasks a).
Proof. intros env σ1 σ2 _ H. unfold sload_tasks. simpl. split; [apply H|done]. Qed.

Lemma local_sload_count a : local a (sload_count a).
Proof.
  intros env σ1 σ2 _ H. unfold sload_count. simpl. split; [apply H|done].
Qed.

Lemma local_sstore_count a n : local a (sstore_count a n).
Proof.
  intros env σ1 σ2 _ (H1 & H2 & H3). unfold sstore_count. simpl.
  split; [done|]. split; [|split]; cbn [fst snd]; [done| |done].
  by rewrite !count_of_eq.
Qed.

Lemma local_push_task a t : local a (push_task a t).
Proof.
  intros env σ1 σ2 _ (H1 & H2 & H3). unfold push_task. simpl.
  split; [done|]. split; [|split]; cbn [fst snd]; [|done..].
  by rewrite !tasks_of_eq, H1.
Qed.

Lemma local_sload_task a i : local a (sload_task a i).
Proof.
  intros env σ1 σ2 _ H. unfold sload_task. destruct H as (H1 & H2 & H3).
  rewrite H1. destruct (tasks_of σ2.1 a !! N.to_nat i); simpl; [|done].
  by repeat split.
Qed.

Lemma local_sstore_task a i f : local a (sstore_task a i f).
Proof.
  intros env σ1 σ2 _ (H1 & H2 & H3). unfold sstore_task.
  rewrite H1. destruct (tasks_of σ2.1 a !! N.to_nat i); simpl; [|done].
  split; [done|]. split; [|split]; cbn [fst snd]; [|done..].
  by rewrite !tasks_of_eq.
Qed.

Lemma local_checked_inc a n : local a (checked_inc n).
Proof.
  unfold checked_inc. destruct (n <? max_uint256);
    [apply local_ret | apply local_throw].
Qed.

Lemma local_checked_dec a n : local a (checked_dec n).
Proof.
  unfold checked_dec. destruct (0 <? n); [apply local_ret | apply local_throw].
Qed.

Lemma local_mload {A} a (l : list A) i : local a (mload l i).
Proof.
  unfold mload. destruct (l !! N.to_nat i); [apply local_ret | apply local_throw].
Qed.

Lemma local_mstore {A} a (l : list A) i x : local a (mstore l i x).
Proof.
  unfold mstore. destruct (i <? len l); [apply local_ret | apply local_throw].
Qed.

Lemma local_for_from {S} a (body : N → S → Tx S) todo :
  (∀ i acc, local a (body i acc)) → ∀ i acc, local a (for_from i todo body acc).
Proof.
  intros Hb. induction todo as [|todo IH]; intros i acc; simpl.
  - apply local_ret.
  - apply local_bind; [apply Hb | intros x; apply IH].
Qed.

Create HintDb tx_local.
#[local] Hint Resolve local_ret local_throw local_timestamp local_require
  local_emit local_sload_tasks local_sload_count local_sstore_count
  local_push_task local_sload_task local_sstore_task local_checked_inc
  local_checked_dec local_mload local_mstore : tx_local.

Ltac local_step :=
  first [ apply local_sender
        | apply local_bind; [ | intros ? ]
        | progress auto with tx_local ].

Lemma local_validTaskId a i : local a (validTaskId i).
Proof. unfold validTaskId. repeat local_step. Qed.

Lemma local_nonEmptyContent a c : local a (nonEmptyContent c).
Proof. unfold nonEmptyContent. repeat local_step. Qed.

#[local] Hint Resolve local_validTaskId local_nonEmptyContent : tx_local.

Lemma local_select_tasks a test l : local a (select_tasks test l).
Proof.
  unfold select_tasks, for_upto.
  apply local_bind.
  - apply local_for_from. intros i acc. apply local_bind; [auto with tx_local|].
    intros t. destruct (test t); auto with tx_local.
  - intros wanted. apply local_bind; [|auto with tx_local].
    apply local_for_from. intros i [out index].
    apply local_bind; [auto with tx_local|].
    intros t. destruct (test t); [|auto with tx_local].
    repeat local_step.
Qed.

Lemma local_createTask a c : local a (createTask c).
Proof. unfold createTask. repeat local_step. Qed.

Lemma local_toggleTask a i : local a (toggleTask i).
Proof.
  unfold toggleTask. do 6 local_step; try solve [repeat local_step].
  destruct (completed _); repeat local_step.
Qed.

Lemma local_updateTask a i c : local a (updateTask i c).
Proof. unfold updateTask. repeat local_step. Qed.

Lemma local_deleteTask a i : local a (deleteTask i).
Proof. unfold deleteTask. repeat local_step. Qed.

Lemma local_dispatch a c : is_count_lookup c = false → local a (dispatch c).
Proof.
  destruct c; simpl; try discriminate; intros _;
    (apply local_bind; [|intros ?; apply local_ret]).
  - apply local_createTask.
  - apply local_toggleTask.
  - apply local_updateTask.
  - apply local_deleteTask.
  - unfold getTask. repeat local_step.
  - unfold getAllTasks. repeat local_step.
  - unfold getActiveTaskCount. repeat local_step.
  - unfold getCompletedTasks. apply local_sender.
    apply local_bind; [auto with tx_local | intros l; apply local_select_tasks].
  - unfold getPendingTasks. apply local_sender.
    apply local_bind; [auto with tx_local | intros l; apply local_select_tasks].
Qed.

(** A call writes to the caller's part of storage only. *)
Lemma step_frame s env c a :
  a ≠ msg_sender env →
  tasks_of (step s (env, c)) a = tasks_of s a
  ∧ count_of (step s (env, c)) a = count_of s a.
Proof.
  intros Ha. step_inv s env c; [done|..];
    unfold after_create, after_toggle, after_update, after_delete;
    rewrite ?tasks_of_with_count, ?tasks_of_with_tasks, ?count_of_with_count,
      ?count_of_with_tasks;
    by rewrite ?decide_False by done.
Qed.

Lemma observe_local s1 s2 env c :
  is_count_lookup c = false →
  tasks_of s1 (msg_sender env) = tasks_of s2 (msg_sender env) →
  count_of s1 (msg_sender env) = count_of s2 (msg_sender env) →
  observe c env s1 = observe c env s2.
Proof.
  intros Hc Ht Hn. unfold observe, call.
  pose proof (local_dispatch (msg_sender env) c Hc env (s1, []) (s2, []) eq_refl) as H.
  unfold same_outcome in H.
  destruct (dispatch c env (s1, [])) as [[v1 [s1' e1]]|f1],
           (dispatch c env (s2, [])) as [[v2 [s2' e2]]|f2].
  - destruct H as (-> & _ & _ & H); [done|]. simpl in H. by rewrite H.
  - by destruct H.
  - by destruct H.
  - by rewrite H.
Qed.

(** C3, as the code has it.  A call made by [B] never changes the sequence
    or the counter of another owner [A]; what [B] observes of any call
    other than the two counter lookups (value, events or failure) is
    determined by [B]'s own sequence and counter, so nothing of [A]'s tasks
    shows in it; the counter lookups return the counter of the address
    asked about, whoever asks. *)
Theorem owners_are_isolated_up_to_count_lookup s env c A :
  let B := msg_sender env in
  A ≠ B →
  tasks_of (step s (env, c)) A = tasks_of s A
  ∧ count_of (step s (env, c)) A = count_of s A
  ∧ (is_count_lookup c = false →
     ∀ s2, tasks_of s2 B = tasks_of s B → count_of s2 B = count_of s B →
           observe c env s2 = observe c env s)
  ∧ observe (GetTaskCountForUser A) env s = Ok (RUint (count_of s A), [])
  ∧ observe (TaskCountGetter A) env s = Ok (RUint (count_of s A), []).
Proof.
  intros B HAB.
  destruct (step_frame s env c A HAB) as [H1 H2].
  split; [done|]. split; [done|]. split; [|done].
  intros Hc s2 Ht Hn. by apply observe_local.
Qed.

Lemma owners_are_isolated_witness :
  let s := run [(mk 2 100, CreateTask "mine")] init in
  let s2 := run [(mk 1 90, CreateTask "A"); (mk 2 100, CreateTask "mine");
                 (mk 1 110, ToggleTask 0)] init in
  tasks_of (step s2 (mk 2 120, DeleteTask 0)) 1 = tasks_of s2 1
  ∧ count_of (step s2 (mk 2 120, DeleteTask 0)) 1 = count_of s2 1
  ∧ observe GetAllTasks (mk 2 120) s2 = observe GetAllTasks (mk 2 120) s.
Proof.
  intros s s2.
  destruct (owners_are_isolated_up_to_count_lookup s2 (mk 2 120) (DeleteTask 0) 1)
    as (H1 & H2 & _); [discriminate|].
  destruct (owners_are_isolated_up_to_count_lookup s (mk 2 120) GetAllTasks 1)
    as (_ & _ & H3 & _); [discriminate|].
  split; [exact H1|]. split; [exact H2|].
  apply H3; [reflexivity | vm_compute; reflexivity | vm_compute; reflexivity].
Defined.

(** C3, as stated, fails: [B] counts [A]'s tasks with [getTaskCountForUser].
    Address 2 has no task in either storage, yet its call returns 1 after
    address 1 created a task and 0 before. *)
Lemma getTaskCountForUser_counts_another_owner :
  let s := run [(mk 1 100, CreateTask "A")] init in
  (1 : N) ≠ 2
  ∧ tasks_of s 2 = tasks_of init 2 ∧ count_of s 2 = count_of init 2
  ∧ observe (GetTaskCountForUser 1) (mk 2 101) s = Ok (RUint 1, [])
  ∧ observe (GetTaskCountForUser 1) (mk 2 101) init = Ok (RUint 0, []).
Proof. vm_compute. repeat split; discriminate. Qed.

(** ** Deleted slots *)

(** C2, as the code has it.  On storage reached by any trace, a slot whose
    content is empty cannot be deleted again ([deleteTask] fails with
    AlreadyDeleted and writes nothing) and, as long as its content is
    empty, it is in neither filtered view; [getAllTasks] and [getTask]
    return the stored slots as they are, the emptied ones included (the
    sequence length is assumed to be a uint256). *)
Theorem deleted_slot_is_filtered_not_removed trace env i t :
  let s := run trace init in
  let l := tasks_of s (msg_sender env) in
  l !! N.to_nat i = Some t → content t = "" → len l ≤ max_uint256 →
  AlreadyDeleted (call (DeleteTask i) env s)
  ∧ step s (env, DeleteTask i) = s
  ∧ (∃ r, call GetCompletedTasks env s = Ok (RTasks r, (s, []))
          ∧ ∀ u, u ∈ r → id u ≠ i ∧ content u ≠ "")
  ∧ (∃ r, call GetPendingTasks env s = Ok (RTasks r, (s, []))
          ∧ ∀ u, u ∈ r → id u ≠ i ∧ content u ≠ "")
  ∧ call GetAllTasks env s = Ok (RTasks l, (s, []))
  ∧ t ∈ l
  ∧ call (GetTask i) env s = Ok (RTask t, (s, [])).
Proof.
  intros s l Ht Hc Hlen.
  assert (Hdel : call (DeleteTask i) env s = Fail (Revert "Task already deleted")).
  { unfold call, dispatch, bind.
    by rewrite (deleteTask_gone _ _ _ _ t) by auto using content_empty_dead. }
  assert (Hid : ∀ u, u ∈ l → content u ≠ "" → id u ≠ i).
  { intros u [j Hj]%list_elem_of_lookup Hu Hi.
    destruct (reachable_wf trace (msg_sender env)) as [Hids _].
    apply Hids in Hj as Hidj. rewrite Hi in Hidj. subst i.
    rewrite Hidj, Nat2N.id in Ht. congruence. }
  destruct (filtered_views trace env Hlen) as (H1 & H2 & H3 & H4 & _).
  split; [done|]. split; [unfold step; cbn [fst snd]; by rewrite Hdel|].
  split; [|split; [|split; [|split]]].
  - eexists. split; [exact H1|]. intros u Hu%H3. split; [apply Hid|]; tauto.
  - eexists. split; [exact H2|]. intros u Hu%H4. split; [apply Hid|]; tauto.
  - reflexivity.
  - by eapply list_elem_of_lookup_2.
  - unfold call, dispatch, bind. by rewrite (getTask_in _ _ _ t).
Qed.

Lemma deleted_slot_witness :
  let s := run [(mk 7 100, CreateTask "A"); (mk 7 101, CreateTask "B");
                (mk 7 102, DeleteTask 0)] init in
  AlreadyDeleted (call (DeleteTask 0) (mk 7 103) s)
  ∧ call GetAllTasks (mk 7 103) s
    = Ok (RTasks [mkTask 0 "" true 100 0; mkTask 1 "B" false 101 0], (s, [])).
Proof.
  intros s.
  destruct (deleted_slot_is_filtered_not_removed
              [(mk 7 100, CreateTask "A"); (mk 7 101, CreateTask "B");
               (mk 7 102, DeleteTask 0)] (mk 7 103) 0 (mkTask 0 "" true 100 0))
    as (H1 & _ & _ & _ & H5 & _).
  - vm_compute. reflexivity.
  - reflexivity.
  - vm_compute. discriminate.
  - split; [exact H1|]. unfold s. rewrite H5. vm_compute. reflexivity.
Defined.

(** C2, as stated, fails: after a task is deleted, [getAllTasks] still
    returns its slot, with the empty content. *)
Lemma getAllTasks_returns_deleted_slot :
  let s := run [(mk 7 100, CreateTask "A"); (mk 7 101, DeleteTask 0)] init in
  call GetAllTasks (mk 7 102) s = Ok (RTasks [mkTask 0 "" true 100 0], (s, []))
  ∧ content (mkTask 0 "" true 100 0) = "".
Proof. vm_compute. repeat split. Qed.

(** ** Where the code departs from the specification *)

(** C1 (divergence).  After [createTask("A")], [deleteTask(0)] and
    [updateTask(0, "B")] by one owner, the sequence holds one task with
    content while [getActiveTaskCount] returns 0: the update of a deleted
    slot gives it content again and the counter is not told. *)
Theorem count_misses_updated_deleted_slot :
  let s := run [(mk 7 100, CreateTask "A"); (mk 7 101, DeleteTask 0);
                (mk 7 102, UpdateTask 0 "B")] init in
  tasks_of s 7 = [mkTask 0 "B" true 100 0]
  ∧ live_count (tasks_of s 7) = 1
  ∧ call GetActiveTaskCount (mk 7 103) s = Ok (RUint 0, (s, [])).
Proof. vm_compute. repeat split. Qed.

(** C5 (divergence).  After a successful [deleteTask(0)], an
    [updateTask(0, "B")] brings id 0 back into [getCompletedTasks]; a
    second [deleteTask(0)] then panics on the counter instead of failing
    with AlreadyDeleted, or succeeds once more when the owner has another
    counted task. *)
Theorem deleted_id_returns_after_update :
  let s := run [(mk 7 100, CreateTask "A"); (mk 7 101, DeleteTask 0);
                (mk 7 102, UpdateTask 0 "B")] init in
  let s' := run [(mk 7 100, CreateTask "A"); (mk 7 101, CreateTask "X");
                 (mk 7 102, DeleteTask 0); (mk 7 103, UpdateTask 0 "B")] init in
  call GetCompletedTasks (mk 7 103) s
    = Ok (RTasks [mkTask 0 "B" true 100 0], (s, []))
  ∧ call (DeleteTask 0) (mk 7 103) s = Fail (Panic 17)
  ∧ observe (DeleteTask 0) (mk 7 104) s' = Ok (RVoid, [TaskDeleted 7 0 104]).
Proof. vm_compute. repeat split. Qed.

(** C6 (divergence).  After [createTask("A")], [deleteTask(0)] and
    [updateTask(0, "B")], task 0 has content, is completed, and its
    [completedAt] is 0. *)
Theorem live_completed_task_without_completedAt :
  let s := run [(mk 7 100, CreateTask "A"); (mk 7 101, DeleteTask 0);
                (mk 7 102, UpdateTask 0 "B")] init in
  ∃ t, call (GetTask 0) (mk 7 103) s = Ok (RTask t, (s, []))
       ∧ content t = "B" ∧ completed t = true ∧ completedAt t = 0.
Proof. eexists. vm_compute. repeat split. Qed.

(** ** What holds when no update reaches a deleted slot *)

Lemma toggled_fields now t :
  completed (toggled now t) = negb (completed t)
  ∧ completedAt (toggled now t) = (if completed t then 0 else now)
  ∧ content (toggled now t) = content t
  ∧ id (toggled now t) = id t
  ∧ createdAt (toggled now t) = createdAt t.
Proof. unfold toggled. destruct t as [i c [] cr co]; simpl; auto. Qed.

(** [toggleTask] twice gives the flag back. *)
Lemma toggleTask_twice s env env' i t :
  msg_sender env' = msg_sender env →
  tasks_of s (msg_sender env) !! N.to_nat i = Some t →
  ∃ t', tasks_of (step (step s (env, ToggleTask i)) (env', ToggleTask i))
          (msg_sender env) !! N.to_nat i = Some t'
        ∧ completed t' = completed t ∧ content t' = content t.
Proof.
  intros He Ht.
  assert (Hn : (N.to_nat i < length (tasks_of s (msg_sender env)))%nat)
    by (by eapply lookup_lt_Some).
  unfold step at 2; cbn [fst snd]. rewrite (call_toggle_ok _ _ _ t) by done.
  set (s1 := after_toggle s env i t).
  assert (H1 : tasks_of s1 (msg_sender env') !! N.to_nat i
               = Some (toggled (block_timestamp env) t)).
  { rewrite He. unfold s1, after_toggle. rewrite tasks_of_eq.
    by rewrite list_lookup_insert_eq. }
  unfold step; cbn [fst snd]. rewrite (call_toggle_ok _ _ _ _ H1).
  unfold after_toggle. rewrite He, tasks_of_eq.
  rewrite list_lookup_insert_eq
    by (unfold s1, after_toggle; rewrite tasks_of_eq; by rewrite length_insert).
  eexists. split; [done|].
  destruct t as [k c [] cr co]; simpl; auto.
Qed.

(** The effect of a successful [deleteTask], and the state right after it. *)
Lemma deleteTask_soft_deletes s env i t :
  tasks_of s (msg_sender env) !! N.to_nat i = Some t → content t ≠ "" →
  0 < count_of s (msg_sender env) →
  let who := msg_sender env in
  let s' := step s (env, DeleteTask i) in
  observe (DeleteTask i) env s = Ok (RVoid, [TaskDeleted who i (block_timestamp env)])
  ∧ tasks_of s' who !! N.to_nat i
    = Some (mkTask (id t) "" true (createdAt t) (completedAt t))
  ∧ count_of s' who + 1 = count_of s who
  ∧ ∀ env', msg_sender env' = who → AlreadyDeleted (call (DeleteTask i) env' s').
Proof.
  intros Ht Hc Hn who s'.
  assert (Hl : live t = true).
  { unfold live, strlen. destruct (content t); [done|]. simpl. apply N.ltb_lt. lia. }
  assert (Hi : (N.to_nat i < length (tasks_of s who))%nat)
    by (by eapply lookup_lt_Some).
  assert (Hs' : s' = after_delete s env i t).
  { unfold s', step; cbn [fst snd]. by rewrite (call_delete_ok _ _ _ t). }
  assert (Hslot : tasks_of s' who !! N.to_nat i = Some (deleted t)).
  { rewrite Hs'. unfold after_delete. fold who.
    rewrite tasks_of_with_count, tasks_of_eq. by rewrite list_lookup_insert_eq. }
  split; [unfold observe; by rewrite (call_delete_ok _ _ _ t)|].
  split; [exact Hslot|]. split.
  - rewrite Hs'. unfold after_delete, who. rewrite count_of_eq. lia.
  - intros env' He. unfold AlreadyDeleted, call, dispatch, bind.
    rewrite <- He in Hslot. by rewrite (deleteTask_gone _ _ _ _ _ Hslot).
Qed.

Lemma in_sync_init a : in_sync init a.
Proof.
  split; [reflexivity|]. intros j t H.
  unfold tasks_of, init in H. simpl in H. rewrite lookup_empty in H.
  simpl in H. by rewrite lookup_nil in H.
Qed.

Lemma in_sync_step s ec a :
  resurrects s ec = false → 0 < block_timestamp ec.1 →
  in_sync s a → in_sync (step s ec) a.
Proof.
  destruct ec as [env c]. cbn [fst snd]. intros Hres Hnow [Hcnt Hat].
  step_inv s env c; [done|..];
    unfold in_sync, after_create, after_toggle, after_update, after_delete;
    rewrite ?tasks_of_with_count, ?tasks_of_with_tasks, ?count_of_with_count,
      ?count_of_with_tasks;
    (destruct (decide (msg_sender env = a)) as [<-|Hne]; [|done]).
  - split.
    + rewrite live_count_snoc. unfold new_task.
      pose proof (valid_content_live c0 zero_task H) as Hlive.
      unfold live in *. simpl in *. rewrite Hlive. lia.
    + intros j t Hj Hl. apply lookup_app_Some in Hj as [Hj|[_ Hj]]; [by eauto|].
      apply list_lookup_singleton_Some in Hj as [_ <-]. simpl.
      split; [lia|discriminate].
  - destruct (toggled_fields (block_timestamp env) t) as (Hc & Ht & Hct & _).
    assert (live (toggled (block_timestamp env) t) = live t) as Hsame
      by (unfold live; by rewrite Hct).
    split.
    + pose proof (live_count_insert _ _ _ (toggled (block_timestamp env) t) H) as E.
      rewrite Hsame in E. lia.
    + intros j u Hj Hl.
      apply list_lookup_insert_Some in Hj as [(_ & <- & _)|[_ Hj]]; [|by eauto].
      rewrite Hc, Ht. destruct (completed t); simpl; split; (lia || done).
  - assert (Hlt : live t = true).
    { unfold resurrects in Hres. cbn [fst snd] in Hres. rewrite H in Hres.
      by destruct (live t). }
    split.
    + pose proof (live_count_insert _ _ _ (set_content c0 t) H) as E.
      rewrite (valid_content_live c0 t H0), Hlt in E. lia.
    + intros j u Hj Hl.
      apply list_lookup_insert_Some in Hj as [(_ & <- & _)|[_ Hj]]; [|by eauto].
      simpl. by eapply Hat.
  - split.
    + pose proof (live_count_insert _ _ _ (deleted t) H) as E.
      rewrite H0 in E. change (live (deleted t)) with false in E.
      cbv iota in E. lia.
    + intros j u Hj Hl.
      apply list_lookup_insert_Some in Hj as [(_ & <- & _)|[_ Hj]]; [done|by eauto].
Qed.

(** On a trace with positive timestamps in which no [updateTask] reaches a
    deleted slot, the counter of every owner is the number of its tasks
    with content, and a task with content has a completion time exactly
    when it is completed. *)
Lemma clean_trace_in_sync trace : ∀ s a,
  clean trace s = true → in_sync s a → in_sync (run trace s) a.
Proof.
  induction trace as [|ec trace IH]; intros s a Hcl Hs; [done|].
  simpl in Hcl. apply andb_prop in Hcl as [Hcl Hrest].
  apply andb_prop in Hcl as [Hres Hnow].
  simpl. apply IH; [done|]. apply in_sync_step; [|by apply N.ltb_lt|done].
  by destruct (resurrects s ec).
Qed.

(** * Further properties of the contract *)

Lemma call_ok_kind s env c v s' evs :
  call c env s = Ok (v, (s', evs)) → ok_kind s env c v s' evs.
Proof.
  intros H. destruct (is_view c) eqn:Hv.
  { unfold call in H. apply (read_only_view c Hv) in H as E.
    injection E as -> ->. by constructor. }
  destruct c as [c|i|i c|i| | | | | | |]; try discriminate; clear Hv.
  - destruct (N_cases_content c) as [Hc|[Hc|Hc]].
    + unfold call, dispatch, bind in H. by rewrite createTask_empty in H.
    + unfold call, dispatch, bind in H. by rewrite createTask_long in H.
    + destruct (N.lt_ge_cases (count_of s (msg_sender env)) max_uint256) as [Hn|Hn].
      * rewrite call_create_ok in H by done. injection H as <- <- <-.
        by constructor.
      * unfold call, dispatch, bind in H. by rewrite createTask_full in H.
  - destruct (lookup_cases (tasks_of s (msg_sender env)) i) as [Hi|[t Ht]].
    + unfold call, dispatch, bind in H. by rewrite toggleTask_out in H.
    + rewrite (call_toggle_ok _ _ _ t) in H by done. injection H as <- <- <-.
      by constructor.
  - destruct (lookup_cases (tasks_of s (msg_sender env)) i) as [Hi|[t Ht]].
    + unfold call, dispatch, bind in H. by rewrite updateTask_out in H.
    + pose proof (lookup_len_lt _ _ _ Ht) as Hlt.
      destruct (N_cases_content c) as [Hc|[Hc|Hc]].
      * unfold call, dispatch, bind in H. by rewrite updateTask_empty in H.
      * unfold call, dispatch, bind in H. by rewrite updateTask_long in H.
      * rewrite (call_update_ok _ _ _ _ t) in H by done. injection H as <- <- <-.
        by constructor.
  - destruct (lookup_cases (tasks_of s (msg_sender env)) i) as [Hi|[t Ht]].
    + unfold call, dispatch, bind in H. by rewrite deleteTask_out in H.
    + destruct (live_cases t) as [Hl|Hl].
      * destruct (N.eq_0_gt_0_cases (count_of s (msg_sender env))) as [Hn|Hn].
        -- unfold call, dispatch, bind in H.
           by rewrite (deleteTask_underflow _ _ _ _ t) in H.
        -- rewrite (call_delete_ok _ _ _ t) in H by done. injection H as <- <- <-.
           by constructor.
      * unfold call, dispatch, bind in H.
        by rewrite (deleteTask_gone _ _ _ _ t) in H.
Qed.

(** X1.  A successful call emits exactly the event of its function:
    [createTask] one TaskCreated with the caller, the new id (the length of
    the sequence before the call), the content and the block time;
    [toggleTask] one TaskCompleted when the flag was false before and one
    TaskUncompleted when it was true; [updateTask] one TaskUpdated with the
    new content; [deleteTask] one TaskDeleted; a view emits nothing and
    returns the storage it was given. *)
Theorem events_of_a_successful_call s env c v s' evs :
  call c env s = Ok (v, (s', evs)) →
  let who := msg_sender env in
  let now := block_timestamp env in
  match c with
  | CreateTask x => evs = [TaskCreated who (len (tasks_of s who)) x now]
  | ToggleTask i =>
      ∃ t, tasks_of s who !! N.to_nat i = Some t
           ∧ evs = [if completed t then TaskUncompleted who i now
                    else TaskCompleted who i now]
  | UpdateTask i x => evs = [TaskUpdated who i x now]
  | DeleteTask i => evs = [TaskDeleted who i now]
  | _ => evs = [] ∧ s' = s
  end.
Proof.
  intros H who now. apply call_ok_kind in H.
  destruct H as [c v Hv| | i t Ht | |]; try done.
  - destruct c; try discriminate; done.
  - by exists t.
Qed.

Lemma events_of_a_successful_call_witness :
  ∃ t, tasks_of (run [(mk 7 100, CreateTask "A")] init) 7 !! N.to_nat 0 = Some t
       ∧ [TaskCompleted 7 0 101]
         = [if completed t then TaskUncompleted 7 0 101 else TaskCompleted 7 0 101].
Proof.
  apply (events_of_a_successful_call
           (run [(mk 7 100, CreateTask "A")] init) (mk 7 101) (ToggleTask 0) RVoid
           (run [(mk 7 100, CreateTask "A"); (mk 7 101, ToggleTask 0)] init)
           [TaskCompleted 7 0 101]).
  vm_compute. reflexivity.
Defined.

(** X2.  [toggleTask] on a slot of the caller's sequence (deleted or not)
    flips [completed] and writes [completedAt]: the block time when the
    task becomes completed, 0 when it becomes pending.  The slot's [id],
    [content] and [createdAt], every other slot, the counters and the
    sequences of the other owners are as before. *)
Theorem toggleTask_flips_one_slot s env i t :
  let who := msg_sender env in
  let l := tasks_of s who in
  l !! N.to_nat i = Some t →
  ∃ s', call (ToggleTask i) env s
          = Ok (RVoid, (s', [if completed t
                             then TaskUncompleted who i (block_timestamp env)
                             else TaskCompleted who i (block_timestamp env)]))
        ∧ tasks_of s' who !! N.to_nat i
          = Some (mkTask (id t) (content t) (negb (completed t)) (createdAt t)
                    (if completed t then 0 else block_timestamp env))
        ∧ length (tasks_of s' who) = length l
        ∧ (∀ j : nat, j ≠ N.to_nat i → tasks_of s' who !! j = l !! j)
        ∧ (∀ a, count_of s' a = count_of s a)
        ∧ (∀ a, a ≠ who → tasks_of s' a = tasks_of s a).
Proof.
  intros who l Ht.
  assert (Hn : (N.to_nat i < length l)%nat) by (by eapply lookup_lt_Some).
  exists (after_toggle s env i t).
  rewrite (call_toggle_ok _ _ _ t) by done. split; [done|].
  unfold after_toggle. fold who. fold l. rewrite tasks_of_eq.
  split.
  { rewrite list_lookup_insert_eq by done. f_equal.
    unfold toggled. by destruct t as [k c [] cr co]. }
  split; [by rewrite length_insert|].
  split; [intros j Hj; by rewrite list_lookup_insert_ne|].
  split; [intros a; by rewrite count_of_with_tasks|].
  intros a Ha. rewrite tasks_of_with_tasks. by rewrite decide_False.
Qed.

Lemma toggleTask_flips_one_slot_witness :
  let s := run [(mk 7 100, CreateTask "A"); (mk 7 101, CreateTask "B")] init in
  ∃ s', call (ToggleTask 1) (mk 7 102) s = Ok (RVoid, (s', [TaskCompleted 7 1 102]))
        ∧ tasks_of s' 7 !! N.to_nat 1 = Some (mkTask 1 "B" true 101 102)
        ∧ length (tasks_of s' 7) = length (tasks_of s 7)
        ∧ (∀ j : nat, j ≠ N.to_nat 1 → tasks_of s' 7 !! j = tasks_of s 7 !! j)
        ∧ (∀ a, count_of s' a = count_of s a)
        ∧ (∀ a, a ≠ 7 → tasks_of s' a = tasks_of s a).
Proof.
  intros s.
  apply (toggleTask_flips_one_slot s (mk 7 102) 1 (mkTask 1 "B" false 101 0)).
  vm_compute. reflexivity.
Defined.

(** X3.  Two [toggleTask] calls in a row on the same slot give back its
    [completed] flag but not its completion time: a task that was
    completed ends with the time of the second call as [completedAt], a
    pending one ends with 0. *)
Theorem toggleTask_twice_resets_completedAt s who now1 now2 i t :
  tasks_of s who !! N.to_nat i = Some t →
  let s2 := run [(mkEnv who now1, ToggleTask i); (mkEnv who now2, ToggleTask i)] s in
  tasks_of s2 who !! N.to_nat i
  = Some (mkTask (id t) (content t) (completed t) (createdAt t)
            (if completed t then now2 else 0))
  ∧ length (tasks_of s2 who) = length (tasks_of s who)
  ∧ ∀ a, count_of s2 a = count_of s a.
Proof.
  intros Ht s2.
  assert (Hn : (N.to_nat i < length (tasks_of s who))%nat)
    by (by eapply lookup_lt_Some).
  set (s1 := step s (mkEnv who now1, ToggleTask i)).
  assert (Hs1 : s1 = after_toggle s (mkEnv who now1) i t).
  { unfold s1, step; cbn [fst snd]. by rewrite (call_toggle_ok _ _ _ t). }
  assert (H1 : tasks_of s1 (msg_sender (mkEnv who now2)) !! N.to_nat i
               = Some (toggled now1 t)).
  { rewrite Hs1. unfold after_toggle; cbn [msg_sender block_timestamp].
    rewrite tasks_of_eq. by rewrite list_lookup_insert_eq. }
  assert (Hs2 : s2 = with_tasks s who
                       (<[N.to_nat i := toggled now2 (toggled now1 t)]> (tasks_of s who))).
  { unfold s2, run; cbn [fold_left]. fold s1.
    unfold step; cbn [fst snd]. rewrite (call_toggle_ok _ _ _ _ H1).
    unfold after_toggle; cbn [msg_sender block_timestamp].
    rewrite Hs1. unfold after_toggle; cbn [msg_sender block_timestamp].
    by rewrite tasks_of_eq, with_tasks_twice, list_insert_insert_eq. }
  rewrite Hs2, tasks_of_eq.
  split; [|split].
  - rewrite list_lookup_insert_eq by done. f_equal.
    unfold toggled. by destruct t as [k c [] cr co].
  - by rewrite length_insert.
  - intros a. by rewrite count_of_with_tasks.
Qed.

Lemma toggleTask_twice_witness :
  let s := run [(mk 7 100, CreateTask "A"); (mk 7 101, ToggleTask 0)] init in
  let s2 := run [(mkEnv 7 102, ToggleTask 0); (mkEnv 7 103, ToggleTask 0)] s in
  tasks_of s2 7 !! N.to_nat 0 = Some (mkTask 0 "A" true 100 103)
  ∧ length (tasks_of s2 7) = length (tasks_of s 7)
  ∧ ∀ a, count_of s2 a = count_of s a.
Proof.
  intros s.
  apply (toggleTask_twice_resets_completedAt s 7 102 103 0 (mkTask 0 "A" true 100 101)).
  vm_compute. reflexivity.
Defined.

(** X4.  [deleteTask] on a slot with content, with a positive counter,
    empties the content, sets [completed], keeps [id], [createdAt] and
    [completedAt], takes one off the caller's counter and emits
    TaskDeleted; every other slot and every other owner is untouched, and
    the same [deleteTask] right afterwards fails with AlreadyDeleted. *)
Theorem deleteTask_empties_one_slot s env i t :
  let who := msg_sender env in
  let l := tasks_of s who in
  l !! N.to_nat i = Some t → content t ≠ "" → 0 < count_of s who →
  ∃ s', call (DeleteTask i) env s
          = Ok (RVoid, (s', [TaskDeleted who i (block_timestamp env)]))
        ∧ tasks_of s' who !! N.to_nat i
          = Some (mkTask (id t) "" true (createdAt t) (completedAt t))
        ∧ length (tasks_of s' who) = length l
        ∧ (∀ j : nat, j ≠ N.to_nat i → tasks_of s' who !! j = l !! j)
        ∧ count_of s' who + 1 = count_of s who
        ∧ (∀ a, a ≠ who → tasks_of s' a = tasks_of s a ∧ count_of s' a = count_of s a)
        ∧ (∀ now', AlreadyDeleted (call (DeleteTask i) (mkEnv who now') s')).
Proof.
  intros who l Ht Hc Hn.
  assert (Hl : live t = true) by (by apply live_iff).
  assert (Hi : (N.to_nat i < length l)%nat) by (by eapply lookup_lt_Some).
  exists (after_delete s env i t).
  rewrite (call_delete_ok _ _ _ t) by done. split; [done|].
  unfold after_delete. fold who. fold l.
  rewrite tasks_of_with_count, tasks_of_eq, count_of_eq.
  assert (Hslot : <[N.to_nat i:=deleted t]> l !! N.to_nat i = Some (deleted t))
    by (by rewrite list_lookup_insert_eq).
  split; [done|]. split; [by rewrite length_insert|].
  split; [intros j Hj; by rewrite list_lookup_insert_ne|].
  split; [lia|]. split.
  - intros a Ha.
    rewrite tasks_of_with_count, tasks_of_with_tasks, count_of_with_count,
      count_of_with_tasks.
    by rewrite !decide_False by done.
  - intros now'. unfold AlreadyDeleted, call, dispatch, bind.
    rewrite (deleteTask_gone _ _ _ _ (deleted t)); [done| |done].
    cbn [msg_sender]. by rewrite tasks_of_with_count, tasks_of_eq.
Qed.

Lemma deleteTask_empties_one_slot_witness :
  let s := run [(mk 7 100, CreateTask "A"); (mk 7 101, ToggleTask 0)] init in
  ∃ s', call (DeleteTask 0) (mk 7 102) s = Ok (RVoid, (s', [TaskDeleted 7 0 102]))
        ∧ tasks_of s' 7 !! N.to_nat 0 = Some (mkTask 0 "" true 100 101)
        ∧ length (tasks_of s' 7) = length (tasks_of s 7)
        ∧ (∀ j : nat, j ≠ N.to_nat 0 → tasks_of s' 7 !! j = tasks_of s 7 !! j)
        ∧ count_of s' 7 + 1 = count_of s 7
        ∧ (∀ a, a ≠ 7 → tasks_of s' a = tasks_of s a ∧ count_of s' a = count_of s a)
        ∧ (∀ now', AlreadyDeleted (call (DeleteTask 0) (mkEnv 7 now') s')).
Proof.
  intros s.
  apply (deleteTask_empties_one_slot s (mk 7 102) 0 (mkTask 0 "A" true 100 101)).
  - vm_compute. reflexivity.
  - discriminate.
  - vm_compute. reflexivity.
Defined.

Lemma step_of_ok s env c v s' evs :
  call c env s = Ok (v, (s', evs)) → step s (env, c) = s'.
Proof. intros H. unfold step; cbn [fst snd]. by rewrite H. Qed.

Lemma step_of_fail s env c f : call c env s = Fail f → step s (env, c) = s.
Proof. intros H. unfold step; cbn [fst snd]. by rewrite H. Qed.

(** X5.  The counter of an owner moves only with that owner's own
    successful [createTask] (one up) and [deleteTask] (one down, from a
    positive value); every other call, every failed call and every call of
    another owner leaves it as it was. *)
Theorem counter_moves_with_create_and_delete_only s env c a :
  count_of (step s (env, c)) a
  = (if bool_decide (msg_sender env = a) && succeeds c env s
     then match c with
          | CreateTask _ => count_of s a + 1
          | DeleteTask _ => count_of s a - 1
          | _ => count_of s a
          end
     else count_of s a)
  ∧ (∀ i, c = DeleteTask i → succeeds c env s = true →
       0 < count_of s (msg_sender env)).
Proof.
  unfold succeeds.
  destruct (call c env s) as [[v [s' evs]]|f] eqn:E.
  - rewrite (step_of_ok _ _ _ _ _ _ E). apply call_ok_kind in E.
    destruct E as [c v Hv|c Hc Hn|i t Ht|i c t Ht Hc|i t Ht Hl Hn];
      rewrite andb_true_r;
      unfold after_create, after_toggle, after_update, after_delete;
      rewrite ?count_of_with_count, ?count_of_with_tasks.
    + split; [|by intros i ->]. destruct c; try discriminate;
        by destruct (bool_decide _).
    + split; [|done]. case_decide.
      * by rewrite bool_decide_eq_true_2; subst.
      * by rewrite bool_decide_eq_false_2.
    + split; [|done]. by destruct (bool_decide _).
    + split; [|done]. by destruct (bool_decide _).
    + split; [|done]. case_decide.
      * by rewrite bool_decide_eq_true_2; subst.
      * by rewrite bool_decide_eq_false_2.
  - rewrite (step_of_fail _ _ _ _ E). rewrite andb_false_r. done.
Qed.

Lemma counter_moves_witness :
  let s := run [(mk 7 100, CreateTask "A")] init in
  0 < count_of s 7.
Proof.
  intros s.
  destruct (counter_moves_with_create_and_delete_only s (mk 7 101) (DeleteTask 0) 7)
    as [_ H].
  apply (H 0); [reflexivity | vm_compute; reflexivity].
Defined.

(** X6.  On storage reached by any trace the counter of an owner is at
    most the number of its tasks with content, which is at most the
    length of its sequence, which is the number of its successful
    creations: [getActiveTaskCount] never reports more tasks than exist. *)
Theorem counter_is_at_most_the_live_tasks trace a :
  let s := run trace init in
  count_of s a ≤ live_count (tasks_of s a)
  ∧ live_count (tasks_of s a) ≤ len (tasks_of s a)
  ∧ len (tasks_of s a) = N.of_nat (creations a trace init).
Proof.
  intros s. split; [apply (reachable_wf trace a)|].
  split; [apply live_count_le_len|].
  unfold len, s. by rewrite run_length.
Qed.

(** X7.  On a trace with positive block times in which no [updateTask]
    is applied to a deleted slot, the counter of every owner is exactly
    the number of its tasks with content, so [getActiveTaskCount] is
    right, and every task with content has [completedAt > 0] exactly when
    it is completed. *)
Theorem counter_is_exact_without_update_of_deleted_slot trace a env :
  clean trace init = true → msg_sender env = a →
  let s := run trace init in
  call GetActiveTaskCount env s = Ok (RUint (live_count (tasks_of s a)), (s, []))
  ∧ ∀ (j : nat) t, tasks_of s a !! j = Some t → content t ≠ "" →
      (0 < completedAt t ↔ completed t = true).
Proof.
  intros Hcl Ha s.
  destruct (clean_trace_in_sync trace init a Hcl (in_sync_init a)) as [Hc Hat].
  fold s in Hc, Hat. split.
  - unfold call, dispatch, getActiveTaskCount, bind, sender, sload_count, ret;
      cbn [fst snd]. by rewrite Ha, Hc.
  - intros j t Hj Hl. apply (Hat j t Hj). by apply live_iff.
Qed.

Lemma counter_is_exact_witness :
  let s := run [(mk 7 100, CreateTask "A"); (mk 7 101, CreateTask "B");
                (mk 7 102, ToggleTask 0); (mk 7 103, DeleteTask 1);
                (mk 7 104, UpdateTask 0 "C"); (mk 7 105, ToggleTask 1)] init in
  call GetActiveTaskCount (mk 7 106) s = Ok (RUint (live_count (tasks_of s 7)), (s, []))
  ∧ ∀ (j : nat) t, tasks_of s 7 !! j = Some t → content t ≠ "" →
      (0 < completedAt t ↔ completed t = true).
Proof.
  apply (counter_is_exact_without_update_of_deleted_slot
           [(mk 7 100, CreateTask "A"); (mk 7 101, CreateTask "B");
            (mk 7 102, ToggleTask 0); (mk 7 103, DeleteTask 1);
            (mk 7 104, UpdateTask 0 "C"); (mk 7 105, ToggleTask 1)] 7 (mk 7 106)).
  - vm_compute. reflexivity.
  - reflexivity.
Defined.

(** X8.  Sequences are append-only from any storage on: along any trace no
    slot disappears, the length of a sequence never goes down, and a slot
    keeps the [id] and the [createdAt] it has. *)
Theorem slots_persist_with_id_and_createdAt later s a (i : nat) t :
  tasks_of s a !! i = Some t →
  (∃ t', tasks_of (run later s) a !! i = Some t'
         ∧ id t' = id t ∧ createdAt t' = createdAt t)
  ∧ (length (tasks_of s a) ≤ length (tasks_of (run later s) a))%nat.
Proof.
  intros H. split; [by apply run_slot|]. rewrite run_length. lia.
Qed.

Lemma slots_persist_witness :
  let s := run [(mk 7 100, CreateTask "A")] init in
  let later := [(mk 7 101, ToggleTask 0); (mk 7 102, UpdateTask 0 "B");
                (mk 7 103, DeleteTask 0); (mk 7 104, CreateTask "C")] in
  (∃ t', tasks_of (run later s) 7 !! 0%nat = Some t'
         ∧ id t' = 0 ∧ createdAt t' = 100)
  ∧ (length (tasks_of s 7) ≤ length (tasks_of (run later s) 7))%nat.
Proof.
  intros s later.
  apply (slots_persist_with_id_and_createdAt later s 7 0 (mkTask 0 "A" false 100 0)).
  vm_compute. reflexivity.
Defined.

Lemma live_filter (l : list Task) :
  filter (λ t, live t = true) l = filter (λ t, content t ≠ "") l.
Proof. apply list_filter_iff, live_iff. Qed.

(** X9.  [getCompletedTasks] and [getPendingTasks] split the caller's
    tasks with content: no task is in both results, together they are a
    rearrangement of the tasks with content, and their lengths add up to
    the number of such tasks (the sequence length is assumed to be a
    uint256). *)
Theorem completed_and_pending_split_the_live_tasks s env :
  let l := tasks_of s (msg_sender env) in
  len l ≤ max_uint256 →
  ∃ finished pending,
    call GetCompletedTasks env s = Ok (RTasks finished, (s, []))
    ∧ call GetPendingTasks env s = Ok (RTasks pending, (s, []))
    ∧ finished ++ pending ≡ₚ filter (λ t, content t ≠ "") l
    ∧ len finished + len pending = live_count l
    ∧ ∀ t, t ∈ finished → t ∉ pending.
Proof.
  intros l Hlen. subst l.
  set (L := filter (λ t, content t ≠ "") (tasks_of s (msg_sender env))).
  assert (Hf : filter (λ t, completed t = true ∧ content t ≠ "")
                 (tasks_of s (msg_sender env))
               = filter (λ t, completed t = true) L)
    by (unfold L; by rewrite list_filter_filter).
  assert (Hp : filter (λ t, completed t = false ∧ content t ≠ "")
                 (tasks_of s (msg_sender env))
               = filter (λ t, ¬ completed t = true) L).
  { unfold L. rewrite list_filter_filter. apply list_filter_iff.
    intros t. split; intros [H1 H2]; (split; [|done]);
      destruct (completed t); congruence. }
  exists (filter (λ t, completed t = true) L), (filter (λ t, ¬ completed t = true) L).
  split; [unfold call, dispatch, bind; by rewrite getCompletedTasks_filter, Hf|].
  split; [unfold call, dispatch, bind; by rewrite getPendingTasks_filter, Hp|].
  pose proof (filter_app_complement (λ t, completed t = true) L) as Hperm.
  split; [done|]. split.
  - unfold live_count, len. rewrite live_filter. fold L.
    rewrite <- Hperm at 3. rewrite length_app. lia.
  - intros t [Ht _]%list_elem_of_filter [Hn _]%list_elem_of_filter. done.
Qed.

Lemma completed_and_pending_split_witness :
  let s := run [(mk 7 100, CreateTask "A"); (mk 7 101, CreateTask "B");
                (mk 7 102, CreateTask "C"); (mk 7 103, ToggleTask 1);
                (mk 7 104, DeleteTask 2)] init in
  ∃ finished pending,
    call GetCompletedTasks (mk 7 105) s = Ok (RTasks finished, (s, []))
    ∧ call GetPendingTasks (mk 7 105) s = Ok (RTasks pending, (s, []))
    ∧ finished ++ pending ≡ₚ filter (λ t, content t ≠ "") (tasks_of s 7)
    ∧ len finished + len pending = live_count (tasks_of s 7)
    ∧ ∀ t, t ∈ finished → t ∉ pending.
Proof.
  intros s. apply (completed_and_pending_split_the_live_tasks s (mk 7 105)).
  vm_compute. discriminate.
Defined.

(** X10.  A view ([getTask], [getAllTasks], [getActiveTaskCount],
    [getCompletedTasks], [getPendingTasks], [getTaskCountForUser], the
    getter [taskCount]) never writes storage and never emits an event,
    and the only way one fails is [getTask] with an id outside the
    caller's sequence (the sequence length is assumed to be a uint256). *)
Theorem views_only_read_and_only_getTask_fails s env c :
  is_view c = true →
  len (tasks_of s (msg_sender env)) ≤ max_uint256 →
  step s (env, c) = s
  ∧ (∀ v s' evs, call c env s = Ok (v, (s', evs)) → s' = s ∧ evs = [])
  ∧ (∀ f, call c env s = Fail f →
       ∃ i, c = GetTask i ∧ len (tasks_of s (msg_sender env)) ≤ i
            ∧ f = Revert "Task does not exist").
Proof.
  intros Hv Hlen. split; [by apply step_view|]. split.
  - intros v s' evs H. unfold call in H.
    apply (read_only_view c Hv) in H. by injection H as -> ->.
  - intros f H.
    destruct c as [| | | |i| | | | | |]; try discriminate.
    + destruct (lookup_cases (tasks_of s (msg_sender env)) i) as [Hi|[t Ht]].
      * exists i. split; [done|]. split; [done|].
        unfold call, dispatch, bind in H. rewrite getTask_out in H by done.
        by injection H as <-.
      * unfold call, dispatch, bind in H. by rewrite (getTask_in _ _ _ t) in H.
    + unfold call, dispatch, bind in H.
      by rewrite getCompletedTasks_filter in H.
    + unfold call, dispatch, bind in H.
      by rewrite getPendingTasks_filter in H.
Qed.

Lemma views_only_read_witness :
  let s := run [(mk 7 100, CreateTask "A")] init in
  step s (mk 7 101, GetTask 3) = s
  ∧ ∃ i, GetTask 3 = GetTask i ∧ len (tasks_of s 7) ≤ i
         ∧ Revert "Task does not exist" = Revert "Task does not exist".
Proof.
  intros s.
  destruct (views_only_read_and_only_getTask_fails s (mk 7 101) (GetTask 3))
    as (H1 & _ & H3); [reflexivity | vm_compute; discriminate |].
  split; [exact H1|]. apply H3. vm_compute. reflexivity.
Defined.

Lemma step_agree s1 s2 ec a :
  msg_sender ec.1 = a →
  tasks_of s1 a = tasks_of s2 a → count_of s1 a = count_of s2 a →
  tasks_of (step s1 ec) a = tasks_of (step s2 ec) a
  ∧ count_of (step s1 ec) a = count_of (step s2 ec) a.
Proof.
  destruct ec as [env c]. cbn [fst snd]. intros Ha Ht Hn.
  destruct (is_count_lookup c) eqn:Hc.
  { rewrite !step_view by (by destruct c). done. }
  pose proof (local_dispatch a c Hc env (s1, []) (s2, []) Ha) as H.
  unfold step, call; cbn [fst snd]. unfold same_outcome in H.
  destruct (dispatch c env (s1, [])) as [[v1 [s1' e1]]|f1],
           (dispatch c env (s2, [])) as [[v2 [s2' e2]]|f2].
  - destruct H as (_ & H1 & H2 & _); done.
  - by destruct H.
  - by destruct H.
  - done.
Qed.

(** X11.  What a trace leaves in the sequence and the counter of an owner
    is what the owner's own calls alone leave there: the calls of the
    other owners can be taken out of the trace without any difference
    for this owner. *)
Theorem owner_state_depends_on_own_calls_only trace : ∀ s a,
  tasks_of (run trace s) a = tasks_of (run (calls_of a trace) s) a
  ∧ count_of (run trace s) a = count_of (run (calls_of a trace) s) a.
Proof.
  assert (G : ∀ s1 s2 a,
    tasks_of s1 a = tasks_of s2 a → count_of s1 a = count_of s2 a →
    tasks_of (run trace s1) a = tasks_of (run (calls_of a trace) s2) a
    ∧ count_of (run trace s1) a = count_of (run (calls_of a trace) s2) a).
  { induction trace as [|ec trace IH]; intros s1 s2 a Ht Hn; [done|].
    unfold calls_of. rewrite filter_cons. fold (calls_of a trace).
    case_decide as Ha.
    - simpl. destruct (step_agree s1 s2 ec a Ha Ht Hn) as [Ht' Hn'].
      by apply IH.
    - simpl. destruct ec as [env c].
      destruct (step_frame s1 env c a) as [Ht' Hn']; [by intros ->|].
      apply IH; congruence. }
  intros s a. by apply G.
Qed.

(** X12.  [updateTask] checks the index only: on a deleted slot it
    succeeds with any content of 1 to 500 bytes, the slot has content
    again, with the flag and the times it had, and the counter is not
    changed, so on storage reached by a trace the counter is then
    strictly below the number of tasks with content. *)
Theorem updateTask_gives_content_back_to_a_deleted_slot trace env i c t :
  let s := run trace init in
  let who := msg_sender env in
  tasks_of s who !! N.to_nat i = Some t → content t = "" → valid_content c →
  ∃ s', call (UpdateTask i c) env s
          = Ok (RVoid, (s', [TaskUpdated who i c (block_timestamp env)]))
        ∧ tasks_of s' who !! N.to_nat i
          = Some (mkTask (id t) c (completed t) (createdAt t) (completedAt t))
        ∧ live_count (tasks_of s' who) = live_count (tasks_of s who) + 1
        ∧ count_of s' who = count_of s who
        ∧ count_of s' who < live_count (tasks_of s' who).
Proof.
  intros s who Ht Hc Hv.
  assert (Hn : (N.to_nat i < length (tasks_of s who))%nat)
    by (by eapply lookup_lt_Some).
  destruct (reachable_wf trace who) as [_ Hle]. fold s in Hle.
  exists (after_update s env i c t).
  rewrite (call_update_ok _ _ _ _ t) by done. split; [done|].
  unfold after_update. fold who. rewrite tasks_of_eq, count_of_with_tasks.
  pose proof (live_count_insert _ _ _ (set_content c t) Ht) as E.
  rewrite (valid_content_live c t Hv), (content_empty_dead t Hc) in E.
  split; [by rewrite list_lookup_insert_eq|].
  split; [lia|]. split; [done|]. lia.
Qed.

Lemma updateTask_gives_content_back_witness :
  let s := run [(mk 7 100, CreateTask "A"); (mk 7 101, DeleteTask 0)] init in
  ∃ s', call (UpdateTask 0 "B") (mk 7 102) s
          = Ok (RVoid, (s', [TaskUpdated 7 0 "B" 102]))
        ∧ tasks_of s' 7 !! N.to_nat 0 = Some (mkTask 0 "B" true 100 0)
        ∧ live_count (tasks_of s' 7) = live_count (tasks_of s 7) + 1
        ∧ count_of s' 7 = count_of s 7
        ∧ count_of s' 7 < live_count (tasks_of s' 7).
Proof.
  apply (updateTask_gives_content_back_to_a_deleted_slot
           [(mk 7 100, CreateTask "A"); (mk 7 101, DeleteTask 0)]
           (mk 7 102) 0 "B" (mkTask 0 "" true 100 0)).
  - vm_compute. reflexivity.
  - reflexivity.
  - split; vm_compute; discriminate.
Defined.

(** X13.  The id carried by TaskCreated reads the task back: after a
    successful [createTask] of a content [c] at time [now], [getTask] of
    that id by the same owner returns the task with that id, content [c],
    not completed, created at [now]; after any further trace it still
    returns a task with that id and that creation time. *)
Theorem created_task_is_read_back_by_its_id trace env c later now' :
  let s := run trace init in
  let who := msg_sender env in
  let k := len (tasks_of s who) in
  valid_content c → k < max_uint256 →
  let s1 := step s (env, CreateTask c) in
  observe (CreateTask c) env s = Ok (RVoid, [TaskCreated who k c (block_timestamp env)])
  ∧ call (GetTask k) (mkEnv who now') s1
    = Ok (RTask (mkTask k c false (block_timestamp env) 0), (s1, []))
  ∧ ∃ t', call (GetTask k) (mkEnv who now') (run later s1)
            = Ok (RTask t', (run later s1, []))
          ∧ id t' = k ∧ createdAt t' = block_timestamp env.
Proof.
  intros s who k Hc Hk s1.
  destruct (reachable_wf trace who) as [_ Hcnt]. fold s in Hcnt.
  pose proof (live_count_le_len (tasks_of s who)) as Hle.
  assert (Hn : count_of s who < max_uint256) by (unfold k in Hk; lia).
  assert (Hs1 : s1 = after_create s env c).
  { unfold s1, step; cbn [fst snd]. by rewrite call_create_ok. }
  assert (Hslot : tasks_of s1 who !! N.to_nat k
                  = Some (mkTask k c false (block_timestamp env) 0)).
  { rewrite Hs1. unfold after_create. fold who.
    rewrite tasks_of_with_count, tasks_of_eq. unfold k, len.
    rewrite Nat2N.id. by rewrite list_lookup_middle. }
  split; [unfold observe; by rewrite call_create_ok|].
  split.
  - unfold call, dispatch, bind.
    by rewrite (getTask_in (mkEnv who now') (s1, []) k _ Hslot).
  - destruct (run_slot later s1 who _ _ Hslot) as (t' & Ht' & Hid & Hcr).
    exists t'. split; [|done].
    unfold call, dispatch, bind.
    by rewrite (getTask_in (mkEnv who now') (run later s1, []) k _ Ht').
Qed.

Lemma created_task_is_read_back_witness :
  let s := run [(mk 7 100, CreateTask "A")] init in
  let s1 := step s (mk 7 101, CreateTask "B") in
  let later := [(mk 7 102, ToggleTask 1); (mk 7 103, UpdateTask 1 "C");
                (mk 8 104, CreateTask "other")] in
  observe (CreateTask "B") (mk 7 101) s = Ok (RVoid, [TaskCreated 7 1 "B" 101])
  ∧ call (GetTask 1) (mkEnv 7 105) s1 = Ok (RTask (mkTask 1 "B" false 101 0), (s1, []))
  ∧ ∃ t', call (GetTask 1) (mkEnv 7 105) (run later s1)
            = Ok (RTask t', (run later s1, []))
          ∧ id t' = 1 ∧ createdAt t' = 101.
Proof.
  intros s s1 later.
  apply (created_task_is_read_back_by_its_id
           [(mk 7 100, CreateTask "A")] (mk 7 101) "B" later 105).
  - split; vm_compute; discriminate.
  - vm_compute. reflexivity.
Defined.

(** * Properties of the client *)

Lemma List_filter_stdpp {A} (f : A → bool) (l : list A) :
  List.filter f l = filter (λ x, f x = true) l.
Proof.
  induction l as [|x l IH]; [done|]. simpl. rewrite filter_cons, IH.
  destruct (f x); by case_decide.
Qed.

Lemma List_filter_fmap {A B} (p : B → bool) (f : A → B) (l : list A) :
  List.filter p (f <$> l) = f <$> List.filter (λ x, p (f x)) l.
Proof.
  induction l as [|x l IH]; [done|].
  rewrite fmap_cons. cbn [List.filter]. rewrite IH.
  destruct (p (f x)); by rewrite ?fmap_cons.
Qed.

Lemma nonempty_iff (c : string) : (0 <? String.length c)%nat = true ↔ c ≠ "".
Proof. destruct c; simpl; split; (done || discriminate). Qed.

Ltac in_table :=
  unfold NETWORKS; rewrite !elem_of_cons;
  repeat (first [left; reflexivity | right]).



(** X15.  The gas limit sent with the task transactions: 3,000,000 on
    every network of the table whose currency is SHM, 500,000 on the two
    local networks of chain 31337, none on Sepolia, on a chain that is
    not in the table, or before a wallet is connected. *)
Theorem getGasOptions_on_the_configured_networks :
  (∀ key net, (key, net) ∈ NETWORKS →
     getGasOptions (Some (chainId net))
     = if String.eqb (currency net) "SHM" then Some 3000000
       else if chainId net =? 31337 then Some 500000
       else None)
  ∧ (∀ c, (∀ key net, (key, net) ∈ NETWORKS → chainId net ≠ c) →
       getGasOptions (Some c) = None)
  ∧ getGasOptions None = None.
Proof.
  split; [|split; [|done]].
  - intros key net Hin. unfold NETWORKS in Hin.
    repeat (apply elem_of_cons in Hin as [[= -> ->]|Hin]; [reflexivity|]).
    by apply elem_of_nil in Hin.
  - intros c H. unfold getGasOptions.
    destruct (N.eqb_spec c 8119) as [->|_].
    { exfalso. eapply H; [eapply (list_elem_of_lookup_2 NETWORKS 2)|]; reflexivity. }
    destruct (N.eqb_spec c 8080) as [->|_].
    { exfalso. eapply H; [eapply (list_elem_of_lookup_2 NETWORKS 3)|]; reflexivity. }
    destruct (N.eqb_spec c 31337) as [->|_]; [|done].
    exfalso. eapply H; [eapply (list_elem_of_lookup_2 NETWORKS 0)|]; reflexivity.
Qed.

Lemma getGasOptions_witness :
  getGasOptions (Some 11155111) = None ∧ getGasOptions (Some 1) = None.
Proof.
  destruct getGasOptions_on_the_configured_networks as (H1 & H2 & _).
  split.
  - apply (H1 "sepolia"
             (mkNetwork 11155111 "Sepolia Testnet" (Some "https://sepolia.infura.io/v3/")
                "ETH" (Some "https://sepolia.etherscan.io") None)).
    in_table.
  - apply H2. intros key net Hin. unfold NETWORKS in Hin.
    repeat (apply elem_of_cons in Hin as [[= -> ->]|Hin]; [discriminate|]).
    by apply elem_of_nil in Hin.
Defined.

Lemma rpc_getAllTasks_all env s :
  rpc_getAllTasks env s = Some (tasks_of s (msg_sender env)).
Proof. reflexivity. Qed.

Lemma formatTasks_live toNumber (l : list Task) :
  formatTasks toNumber l
  = formatTask toNumber <$> filter (λ t, content t ≠ "") l.
Proof.
  unfold formatTasks. rewrite List_filter_fmap. f_equal.
  rewrite List_filter_stdpp. apply list_filter_iff. intros t. apply nonempty_iff.
Qed.

Lemma filteredTasks_completed toNumber (l : list Task) :
  filteredTasks "completed" (formatTask toNumber <$> l)
  = formatTask toNumber <$> filter (λ t, completed t = true) l.
Proof.
  unfold filteredTasks. cbn [String.eqb Ascii.eqb Bool.eqb andb].
  by rewrite List_filter_fmap, List_filter_stdpp.
Qed.

Lemma filteredTasks_pending toNumber (l : list Task) :
  filteredTasks "pending" (formatTask toNumber <$> l)
  = formatTask toNumber <$> filter (λ t, completed t = false) l.
Proof.
  unfold filteredTasks. cbn [String.eqb Ascii.eqb Bool.eqb andb].
  rewrite List_filter_fmap, List_filter_stdpp. f_equal.
  apply list_filter_iff. intros t. simpl. by destruct (completed t).
Qed.

(** X16.  After [fetchTasks] the client holds the caller's tasks with
    content, formatted, in the order of the sequence, with no error and
    not loading.  Its Completed tab then shows exactly the tasks that
    [getCompletedTasks] returns and its Pending tab exactly those that
    [getPendingTasks] returns, formatted, and its total is the number of
    tasks with content of the caller's sequence (the sequence length is
    assumed to be a uint256). *)
Theorem fetched_tabs_are_the_contract_views toNumber s env st :
  let l := tasks_of s (msg_sender env) in
  len l ≤ max_uint256 →
  let st' := fetchTasks toNumber true (rpc_getAllTasks env s) st in
  tasks st' = formatTask toNumber <$> filter (λ t, content t ≠ "") l
  ∧ loading st' = false ∧ error st' = None
  ∧ (∃ finished,
       call GetCompletedTasks env s = Ok (RTasks finished, (s, []))
       ∧ filteredTasks "completed" (tasks st') = formatTask toNumber <$> finished)
  ∧ (∃ pending,
       call GetPendingTasks env s = Ok (RTasks pending, (s, []))
       ∧ filteredTasks "pending" (tasks st') = formatTask toNumber <$> pending)
  ∧ N.of_nat (stats_total (stats (tasks st'))) = live_count l.
Proof.
  intros l Hlen st'. subst l.
  assert (Ht : tasks st' = formatTask toNumber <$>
                 filter (λ t, content t ≠ "") (tasks_of s (msg_sender env))).
  { unfold st'. rewrite rpc_getAllTasks_all. cbn [fetchTasks tasks].
    apply formatTasks_live. }
  split; [done|]. split; [done|]. split; [done|]. rewrite Ht.
  split; [|split].
  - eexists. split.
    + unfold call, dispatch, bind. by rewrite getCompletedTasks_filter.
    + cbn [ret]. by rewrite filteredTasks_completed, list_filter_filter.
  - eexists. split.
    + unfold call, dispatch, bind. by rewrite getPendingTasks_filter.
    + cbn [ret]. by rewrite filteredTasks_pending, list_filter_filter.
  - cbn [stats stats_total]. rewrite length_fmap.
    unfold live_count, len. by rewrite live_filter.
Qed.

Lemma fetched_tabs_witness :
  let s := run [(mk 7 100, CreateTask "A"); (mk 7 101, CreateTask "B");
                (mk 7 102, CreateTask "C"); (mk 7 103, ToggleTask 1);
                (mk 7 104, DeleteTask 2)] init in
  let st' := fetchTasks (λ n, n) true (rpc_getAllTasks (mk 7 105) s)
               (mkTodoState [] false None) in
  tasks st' = [mkTask 0 "A" false 100 0; mkTask 1 "B" true 101 103]
  ∧ filteredTasks "completed" (tasks st') = [mkTask 1 "B" true 101 103]
  ∧ filteredTasks "pending" (tasks st') = [mkTask 0 "A" false 100 0].
Proof.
  intros s st'.
  destruct (fetched_tabs_are_the_contract_views (λ n, n) s (mk 7 105)
              (mkTodoState [] false None))
    as (H1 & _ & _ & _ & _ & _); [vm_compute; discriminate|].
  fold st' in H1. rewrite H1. vm_compute. repeat split.
Defined.

(** X17.  The counters of the list add up: the total is the sum of the
    completed and the pending counters, the Completed and Pending tabs
    list as many tasks as their counters say, and any other tab value
    lists every task. *)
Theorem stats_add_up_and_match_the_tabs (l : list Task) (tab : string) :
  stats_total (stats l) = (stats_completed (stats l) + stats_pending (stats l))%nat
  ∧ length (filteredTasks "completed" l) = stats_completed (stats l)
  ∧ length (filteredTasks "pending" l) = stats_pending (stats l)
  ∧ (tab ≠ "pending" → tab ≠ "completed" → filteredTasks tab l = l).
Proof.
  split; [|split; [|split]]; try reflexivity.
  - cbn [stats stats_total stats_completed stats_pending].
    induction l as [|t l IH]; [done|]. simpl. destruct (completed t); simpl; lia.
  - intros Hp Hc. unfold filteredTasks.
    rewrite (proj2 (String.eqb_neq tab "pending")) by done.
    rewrite (proj2 (String.eqb_neq tab "completed")) by done.
    induction l as [|t l IH]; [done|]. simpl. by rewrite IH.
Qed.

Lemma stats_add_up_witness :
  filteredTasks "all" [mkTask 0 "A" false 100 0; mkTask 1 "B" true 101 103]
  = [mkTask 0 "A" false 100 0; mkTask 1 "B" true 101 103].
Proof.
  apply (stats_add_up_and_match_the_tabs
           [mkTask 0 "A" false 100 0; mkTask 1 "B" true 101 103] "all");
    discriminate.
Defined.

(** X18.  Neither form of the client sends an empty content: a text
    that trims to nothing, or a pending transaction, stops
    [handleCreateTask] and [handleSaveEdit] before any call; otherwise
    the call carries the trimmed text, and the contract never answers it
    with "Content cannot be empty". *)
Theorem forms_never_send_empty_content trim text txPending taskId :
  (match handleCreateTask trim text txPending with
   | Some c => c = CreateTask (trim text) ∧ txPending = false
   | None => trim text = "" ∨ txPending = true
   end)
  ∧ (match handleSaveEdit trim taskId text txPending with
     | Some c => c = UpdateTask taskId (trim text) ∧ txPending = false
     | None => trim text = "" ∨ txPending = true
     end)
  ∧ ∀ c env s,
      handleCreateTask trim text txPending = Some c
      ∨ handleSaveEdit trim taskId text txPending = Some c →
      call c env s ≠ Fail (Revert "Content cannot be empty").
Proof.
  unfold handleCreateTask, handleSaveEdit.
  destruct (String.eqb_spec (trim text) "") as [He|Hne]; cbn [orb].
  { split; [by left|]. split; [by left|]. by intros c env s [?|?]. }
  destruct txPending.
  { split; [by right|]. split; [by right|]. by intros c env s [?|?]. }
  split; [done|]. split; [done|].
  assert (Hpos : 0 < strlen (trim text)).
  { unfold strlen. destruct (trim text); [done|]. simpl. lia. }
  intros c env s [[= <-]|[= <-]] Hfail.
  - unfold call, dispatch, bind in Hfail.
    destruct (N_cases_content (trim text)) as [Hc|[Hc|Hc]]; [lia| |].
    + by rewrite createTask_long in Hfail.
    + destruct (N.lt_ge_cases (count_of s (msg_sender env)) max_uint256).
      * by rewrite createTask_ok in Hfail.
      * by rewrite createTask_full in Hfail.
  - unfold call, dispatch, bind in Hfail.
    destruct (lookup_cases (tasks_of s (msg_sender env)) taskId) as [Hi|[t Ht]].
    + by rewrite updateTask_out in Hfail.
    + pose proof (lookup_len_lt _ _ _ Ht) as Hlt.
      destruct (N_cases_content (trim text)) as [Hc|[Hc|Hc]]; [lia| |].
      * by rewrite updateTask_long in Hfail.
      * by rewrite (updateTask_in _ _ _ _ _ t) in Hfail.
Qed.

Lemma forms_never_send_witness :
  call (CreateTask "A") (mk 7 100) init ≠ Fail (Revert "Content cannot be empty").
Proof.
  destruct (forms_never_send_empty_content (λ x, x) "A" false 0) as (_ & _ & H).
  apply H. left. reflexivity.
Defined.

(** X19.  The deployment script and the client agree on every network of
    the client's table: [getNetworkCurrency] gives the currency of the
    table, and [getExplorerUrl] gives for a deployed address the very
    link the client shows for it, and none for the networks without
    explorer.  A network of the Hardhat configuration that is in neither,
    as berachain_testnet, falls back to ETH and to no link. *)
Theorem deploy_script_agrees_with_the_client_table :
  (∀ key net address, (key, net) ∈ NETWORKS → address ≠ "" →
     getNetworkCurrency key = currency net
     ∧ getExplorerUrl key address = explorerLink (Some net) address)
  ∧ getNetworkCurrency "berachain_testnet" = "ETH"
  ∧ ∀ address, getExplorerUrl "berachain_testnet" address = None.
Proof.
  split; [|split; done].
  intros key net address Hin Ha. unfold NETWORKS in Hin.
  assert (He : String.eqb address "" = false) by (by apply String.eqb_neq).
  repeat (apply elem_of_cons in Hin as [[= -> ->]|Hin];
          [split; [reflexivity|];
           unfold getExplorerUrl, explorerLink; cbn -[String.eqb];
           rewrite ?He; reflexivity|]).
  by apply elem_of_nil in Hin.
Qed.

Lemma deploy_script_agrees_witness :
  getNetworkCurrency "shardeum_testnet" = "SHM"
  ∧ getExplorerUrl "shardeum_testnet" "0xabc"
    = Some "https://explorer-mezame.shardeum.org/address/0xabc".
Proof.
  destruct deploy_script_agrees_with_the_client_table as [H _].
  destruct (H "shardeum_testnet"
              (mkNetwork 8119 "Shardeum EVM Testnet"
                 (Some "https://api-mezame.shardeum.org") "SHM"
                 (Some "https://explorer-mezame.shardeum.org")
                 (Some "https://docs.shardeum.org/docs/developer/faucet"))
              "0xabc") as [H1 H2]; [in_table | discriminate |].
  split; [exact H1 | exact H2].
Defined.

Lemma substring_prefix (p x : string) :
  String.substring 0 (String.length p) (p +:+ x) = p.
Proof.
  induction p as [|a p IH]; simpl.
  - by destruct x.
  - by rewrite IH.
Qed.

Lemma substring_whole (q : string) : String.substring 0 (String.length q) q = q.
Proof. induction q as [|a q IH]; simpl; [done|]. by rewrite IH. Qed.

Lemma substring_suffix (x q : string) :
  String.substring (String.length x) (String.length q) (x +:+ q) = q.
Proof.
  induction x as [|a x IH]; simpl; [apply substring_whole|]. apply IH.
Qed.

Lemma length_app_string (x y : string) :
  String.length (x +:+ y) = (String.length x + String.length y)%nat.
Proof. induction x as [|a x IH]; simpl; [done|]. by rewrite IH. Qed.

Lemma app_assoc_string (x y z : string) : (x +:+ y) +:+ z = x +:+ y +:+ z.
Proof.
  induction x as [|a x IH]; [reflexivity|].
  change (String a ((x +:+ y) +:+ z) = String a (x +:+ y +:+ z)). by rewrite IH.
Qed.

(** X20.  [truncateAddress] shows the first six and the last four
    characters of an address around three dots, whatever is in between,
    so two addresses that differ in the middle only are shown alike; no
    account and the empty text give the empty text. *)
Theorem truncateAddress_keeps_six_and_four p m q :
  String.length p = 6%nat → String.length q = 4%nat →
  truncateAddress (Some (p +:+ m +:+ q)) = p +:+ "..." +:+ q
  ∧ truncateAddress None = "" ∧ truncateAddress (Some "") = "".
Proof.
  intros Hp Hq. split; [|done].
  unfold truncateAddress.
  destruct (p +:+ m +:+ q) as [|a r] eqn:E.
  { destruct p; simpl in *; discriminate. }
  rewrite <- E. f_equal.
  - rewrite <- Hp. apply substring_prefix.
  - f_equal. rewrite <- app_assoc_string, length_app_string, Hq.
    replace (String.length (p +:+ m) + 4 - 4)%nat with (String.length (p +:+ m)) by lia.
    rewrite <- Hq. apply substring_suffix.
Qed.

Lemma truncateAddress_witness :
  truncateAddress (Some "0xf39Fd6e51aad88F6F4ce6aB8827279cffFb92266")
  = "0xf39F...2266".
Proof.
  apply (truncateAddress_keeps_six_and_four
           "0xf39F" "d6e51aad88F6F4ce6aB8827279cffFb9" "2266"); reflexivity.
Defined.

(** X21.  A call fails in five ways only: the four reverts "Content
    cannot be empty", "Content too long (max 500 chars)", "Task does not
    exist", "Task already deleted", and the arithmetic panic 0x11 of the
    counter, which needs a [deleteTask] with a counter of zero or a
    [createTask] with a full counter.  No call ever reads or writes an
    array out of bounds (the sequence length is assumed to be a
    uint256). *)
Theorem calls_fail_in_five_ways_only s env c f :
  let who := msg_sender env in
  len (tasks_of s who) ≤ max_uint256 →
  call c env s = Fail f →
  (InvalidContent (call c env s)
   ∧ ((∃ x, c = CreateTask x) ∨ (∃ i x, c = UpdateTask i x)))
  ∨ TaskNotFound (call c env s)
  ∨ (AlreadyDeleted (call c env s) ∧ ∃ i, c = DeleteTask i)
  ∨ (f = Panic 17
     ∧ ((∃ i, c = DeleteTask i ∧ count_of s who = 0)
        ∨ (∃ x, c = CreateTask x ∧ max_uint256 ≤ count_of s who))).
Proof.
  intros who Hlen H. unfold InvalidContent, TaskNotFound, AlreadyDeleted.
  destruct (is_view c) eqn:Hv.
  { destruct c as [| | | |i| | | | | |]; try discriminate.
    - destruct (lookup_cases (tasks_of s who) i) as [Hi|[t Ht]].
      + right; left. unfold call, dispatch, bind. by rewrite getTask_out.
      + unfold call, dispatch, bind in H. by rewrite (getTask_in _ _ _ t) in H.
    - unfold call, dispatch, bind in H. by rewrite getCompletedTasks_filter in H.
    - unfold call, dispatch, bind in H. by rewrite getPendingTasks_filter in H. }
  destruct c as [c|i|i c|i| | | | | | |]; try discriminate; clear Hv.
  - destruct (N_cases_content c) as [Hc|[Hc|Hc]].
    + left. split; [|by eauto]. left.
      unfold call, dispatch, bind. by rewrite createTask_empty.
    + left. split; [|by eauto]. right.
      unfold call, dispatch, bind. by rewrite createTask_long.
    + destruct (N.lt_ge_cases (count_of s who) max_uint256) as [Hn|Hn].
      * by rewrite call_create_ok in H.
      * do 3 right. unfold call, dispatch, bind in H.
        rewrite createTask_full in H by done. injection H as <-.
        split; [done|]. right. eauto.
  - destruct (lookup_cases (tasks_of s who) i) as [Hi|[t Ht]].
    + right; left. unfold call, dispatch, bind. by rewrite toggleTask_out.
    + by rewrite (call_toggle_ok _ _ _ t) in H.
  - destruct (lookup_cases (tasks_of s who) i) as [Hi|[t Ht]].
    + right; left. unfold call, dispatch, bind. by rewrite updateTask_out.
    + pose proof (lookup_len_lt _ _ _ Ht) as Hlt.
      destruct (N_cases_content c) as [Hc|[Hc|Hc]].
      * left. split; [|by eauto]. left.
        unfold call, dispatch, bind. by rewrite updateTask_empty.
      * left. split; [|by eauto]. right.
        unfold call, dispatch, bind. by rewrite updateTask_long.
      * by rewrite (call_update_ok _ _ _ _ t) in H.
  - destruct (lookup_cases (tasks_of s who) i) as [Hi|[t Ht]].
    + right; left. unfold call, dispatch, bind. by rewrite deleteTask_out.
    + destruct (live_cases t) as [Hl|Hl].
      * destruct (N.eq_0_gt_0_cases (count_of s who)) as [Hn|Hn].
        -- do 3 right. unfold call, dispatch, bind in H.
           rewrite (deleteTask_underflow _ _ _ _ t) in H by done.
           injection H as <-. split; [done|]. left. eauto.
        -- by rewrite (call_delete_ok _ _ _ t) in H.
      * right; right; left. split; [|by eauto].
        unfold call, dispatch, bind. by rewrite (deleteTask_gone _ _ _ _ t).
Qed.

Lemma calls_fail_in_five_ways_witness :
  let s := run [(mk 7 100, CreateTask "A"); (mk 7 101, DeleteTask 0);
                (mk 7 102, UpdateTask 0 "B")] init in
  (InvalidContent (call (DeleteTask 0) (mk 7 103) s)
   ∧ ((∃ x, DeleteTask 0 = CreateTask x) ∨ (∃ i x, DeleteTask 0 = UpdateTask i x)))
  ∨ TaskNotFound (call (DeleteTask 0) (mk 7 103) s)
  ∨ (AlreadyDeleted (call (DeleteTask 0) (mk 7 103) s) ∧ ∃ i, DeleteTask 0 = DeleteTask i)
  ∨ (Panic 17 = Panic 17
     ∧ ((∃ i, DeleteTask 0 = DeleteTask i ∧ count_of s 7 = 0)
        ∨ (∃ x, DeleteTask 0 = CreateTask x ∧ max_uint256 ≤ count_of s 7))).
Proof.
  intros s.
  apply (calls_fail_in_five_ways_only s (mk 7 103) (DeleteTask 0) (Panic 17)).
  - vm_compute. discriminate.
  - vm_compute. reflexivity.
Defined.
